(** * Symphony.js: the code-to-mood analysis and the commit-composition scheduler

    Shallow embedding of
    - [src/services/InstrumentManager.ts] (commit playback scheduling),
    - the [analyze] listing of [.kiro/specs/symphony-js/design.md],
    - the heuristics and the composition planner of [services/CodeAnalyzer],
      whose implementation file is not part of the sources at hand,
    - the live playback of [InstrumentManager.ts], the callbacks of
      [contexts/AudioEngineContext.tsx] and [components/EditorPanel.tsx],
      [hooks/useKeyboardShortcuts.ts], [utils/performanceMonitor.ts] and
      [utils/languageDetector.ts].

    JavaScript numbers are modelled by exact rationals ([Q]): every property
    below is about which arithmetic expression the code evaluates, not about
    rounding of IEEE doubles. *)

From Stdlib Require Import List String Ascii Bool Arith ZArith QArith Qround Lia.
From Stdlib Require Import Lqa Permutation Sorted.
Import ListNotations.

Local Open Scope string_scope.
Local Open Scope Q_scope.

(* ================================================================= *)
(** ** Types ([types/audio.ts], [types/composition.ts]) *)

Inductive MoodState := DISCORDANT | HARMONIOUS | INTENSE.

Record MoodData := mkMoodData {
  tempo : Q;
  rootKey : string;
  intensity : Q;
  mood : MoodState
}.

Inductive SectionType :=
  | T_import | T_function | T_return | T_loop | T_conditional | T_other.

Inductive InstrumentType := rhythm | harmony | melody.

(** [sec_type] and [sec_tempo] are the fields [type] and [tempo]. *)
Record CompositionSection := mkSection {
  sec_type : SectionType;
  startLine : nat;
  endLine : nat;
  duration : Q;
  notes : list string;
  sec_tempo : Q;
  instrument : InstrumentType
}.

(* ================================================================= *)
(** ** The audio backend as seen by [InstrumentManager]

    [Tone.getTransport()] is one global object.  A scheduled callback
    [(t) => this.X.triggerAttackRelease(n, d, t)] is recorded as the data of
    the trigger it performs. *)

(** Second argument of [triggerAttackRelease]: a notation such as ['8n'] or a
    number of seconds. *)
Inductive ToneTime :=
  | Notation_ (s : string)
  | Seconds (q : Q).

(** First argument of [triggerAttackRelease]: one note or a chord. *)
Inductive ToneNotes :=
  | Note (n : string)
  | Chord (ns : list string).

Record Trigger := mkTrigger {
  target : InstrumentType;
  pitch : ToneNotes;
  held : ToneTime
}.

Record ScheduledEvent := mkEvent {
  ev_time : Q;
  ev_callback : Trigger
}.

Inductive PlaybackState := started | stopped.

Record Transport := mkTransport {
  state : PlaybackState;
  bpm : Q;
  timeline : list ScheduledEvent;
  pendingStop : option Q
}.

(** A transport on which nothing is playing and nothing is scheduled. *)
Definition idle (b : Q) : Transport := mkTransport stopped b [] None.

(* ----------------------------------------------------------------- *)
(** *** A state monad over the global transport *)

Definition M (A : Type) : Type := Transport -> A * Transport.

Definition ret {A} (a : A) : M A := fun tr => (a, tr).

Definition bind {A B} (c : M A) (k : A -> M B) : M B :=
  fun tr => let (a, tr') := c tr in k a tr'.

Declare Scope tone_scope.
Delimit Scope tone_scope with tone.
Notation "x <- c ;; k" := (bind c (fun x => k))
  (at level 61, c at next level, right associativity) : tone_scope.
Notation "c ;; k" := (bind c (fun _ => k))
  (at level 61, right associativity) : tone_scope.
Local Open Scope tone_scope.

Definition exec {A} (c : M A) (tr : Transport) : Transport := snd (c tr).
Definition eval {A} (c : M A) (tr : Transport) : A := fst (c tr).

(** [xs.forEach((x, index) => body)] *)
Fixpoint forEach_from {A} (index : nat) (xs : list A) (body : A -> nat -> M unit)
  : M unit :=
  match xs with
  | [] => ret tt
  | x :: xs' => body x index ;; forEach_from (S index) xs' body
  end.

Definition forEach {A} (xs : list A) (body : A -> nat -> M unit) : M unit :=
  forEach_from 0 xs body.

(** [for (let i = 0; i < n; i++) body] , the next index being [i]. *)
Fixpoint for_loop (n : nat) (i : nat) (body : nat -> M unit) : M unit :=
  match n with
  | O => ret tt
  | S n' => body i ;; for_loop n' (S i) body
  end.

(** Modelled from the spec: the transport of the external audio backend
    (Tone.js is not part of the sources), with the operations the spec lists,
    "a transport with start/stop/cancelAllScheduled semantics and a settable
    global tempo".  [stop()] halts the clock at once and drops a stop that
    was scheduled for later, [cancel()] clears every scheduled event,
    [schedule(cb, time)] adds one, [stop("+t")] arms a stop [t] seconds after
    now. *)
Definition transport_stop : M unit :=
  fun tr => (tt, mkTransport stopped (bpm tr) (timeline tr) None).

Definition transport_cancel : M unit :=
  fun tr => (tt, mkTransport (state tr) (bpm tr) [] (pendingStop tr)).

Definition transport_start : M unit :=
  fun tr => (tt, mkTransport started (bpm tr) (timeline tr) (pendingStop tr)).

Definition transport_stop_in (t : Q) : M unit :=
  fun tr => (tt, mkTransport (state tr) (bpm tr) (timeline tr) (Some t)).

Definition set_bpm (v : Q) : M unit :=
  fun tr => (tt, mkTransport (state tr) v (timeline tr) (pendingStop tr)).

Definition schedule (cb : Trigger) (time : Q) : M unit :=
  fun tr => (tt, mkTransport (state tr) (bpm tr)
                   (timeline tr ++ [mkEvent time cb]) (pendingStop tr)).

(* ================================================================= *)
(** ** [InstrumentManager]: commit playback *)

Module InstrumentManager.

(** JS number of an array index or length. *)
Definition num (n : nat) : Q := inject_Z (Z.of_nat n).

(** [Math.floor(x)] as a loop bound: a negative bound runs no iteration. *)
Definition floor_count (x : Q) : nat := Z.to_nat (Qfloor x).

(** [notes.slice(0, 3)] *)
Definition slice_0_3 (notes : list string) : list string := firstn 3 notes.

(** [notes[i]], which the callers only use in range. *)
Definition at_index (notes : list string) (i : nat) : string := nth i notes "".

Definition scheduleImportSection (startTime duration : Q) (notes : list string)
  : M unit :=
  let beatInterval := 1 # 2 in
  let numBeats := floor_count (duration / beatInterval) in
  for_loop numBeats 0 (fun i =>
    let time := startTime + (num i * beatInterval) in
    schedule (mkTrigger rhythm (Note "C2") (Notation_ "8n")) time) ;;
  if (0 <? List.length notes)%nat
  then schedule (mkTrigger harmony (Chord (slice_0_3 notes)) (Seconds duration))
                startTime
  else ret tt.

Definition scheduleFunctionSection (startTime duration : Q) (notes : list string)
  : M unit :=
  if (List.length notes =? 0)%nat then ret tt else
  let noteInterval := duration / num (List.length notes) in
  forEach notes (fun note index =>
    let time := startTime + (num index * noteInterval) in
    schedule (mkTrigger melody (Note note) (Notation_ "8n")) time ;;
    if (index mod 2 =? 0)%nat
    then schedule (mkTrigger rhythm (Note "C1") (Notation_ "16n")) time
    else ret tt) ;;
  if (3 <=? List.length notes)%nat
  then
    let chord := [at_index notes 0;
                  at_index notes (List.length notes / 2);
                  at_index notes (List.length notes - 1)] in
    schedule (mkTrigger harmony (Chord chord) (Seconds (duration * (8 # 10))))
             startTime
  else ret tt.

Definition scheduleReturnSection (startTime duration : Q) (notes : list string)
  : M unit :=
  if (3 <=? List.length notes)%nat
  then
    let resolvingChord := slice_0_3 notes in
    schedule (mkTrigger harmony (Chord resolvingChord) (Seconds duration))
             startTime ;;
    schedule (mkTrigger melody (Note (at_index notes 0))
                        (Seconds (duration * (1 # 2))))
             (startTime + duration * (3 # 10)) ;;
    schedule (mkTrigger rhythm (Note "C2") (Notation_ "4n")) startTime
  else ret tt.

Definition scheduleGenericSection (startTime duration : Q) (notes : list string)
  (instr : InstrumentType) : M unit :=
  if (List.length notes =? 0)%nat then ret tt else
  match instr with
  | rhythm =>
      schedule (mkTrigger rhythm (Note "C1") (Notation_ "8n")) startTime
  | harmony =>
      schedule (mkTrigger harmony (Chord (slice_0_3 notes)) (Seconds duration))
               startTime
  | melody =>
      let noteInterval := duration / num (List.length notes) in
      forEach notes (fun note index =>
        let time := startTime + (num index * noteInterval) in
        schedule (mkTrigger melody (Note note) (Notation_ "16n")) time)
  end.

(** The [switch (section.type)] of [playCommitComposition]. *)
Definition scheduleSection (startTime : Q) (section : CompositionSection)
  : M unit :=
  let duration := duration section in
  match sec_type section with
  | T_import => scheduleImportSection startTime duration (notes section)
  | T_function => scheduleFunctionSection startTime duration (notes section)
  | T_return => scheduleReturnSection startTime duration (notes section)
  | _ => scheduleGenericSection startTime duration (notes section)
           (instrument section)
  end.

(** The body of [sections.forEach], threading the local [currentTime]. *)
Fixpoint schedule_sections (sections : list CompositionSection) (currentTime : Q)
  : M Q :=
  match sections with
  | [] => ret currentTime
  | section :: rest =>
      let startTime := currentTime in
      set_bpm (sec_tempo section) ;;
      scheduleSection startTime section ;;
      schedule_sections rest (currentTime + duration section)
  end.

Definition playCommitComposition (sections : list CompositionSection) : M unit :=
  transport_stop ;;
  transport_cancel ;;
  currentTime <- schedule_sections sections 0 ;;
  transport_start ;;
  transport_stop_in currentTime.

End InstrumentManager.

(* ================================================================= *)
(** ** [CodeAnalyzer] *)

(** [types/editor.ts] *)
Inductive LanguageType := javascript | python.

Module CodeAnalyzer.

(* ----------------------------------------------------------------- *)
(** *** Text helpers *)

Definition newline : ascii := "010"%char.
Definition space : ascii := " "%char.

Definition is_whitespace (c : ascii) : bool :=
  Ascii.eqb c space || Ascii.eqb c "009"%char || Ascii.eqb c "013"%char
  || Ascii.eqb c newline.

(** [s.includes(pat)] *)
Fixpoint contains (pat s : string) : bool :=
  match s with
  | EmptyString => prefix pat EmptyString
  | String _ s' => prefix pat s || contains pat s'
  end.

(** [s.split('\n')] *)
Fixpoint lines (s : string) : list string :=
  match s with
  | EmptyString => [EmptyString]
  | String c s' =>
      if Ascii.eqb c newline then EmptyString :: lines s'
      else match lines s' with
           | l :: ls => String c l :: ls
           | [] => [String c EmptyString]
           end
  end.

Fixpoint trimStart (s : string) : string :=
  match s with
  | EmptyString => EmptyString
  | String c s' => if is_whitespace c then trimStart s' else s
  end.

Definition is_blank (s : string) : bool :=
  match trimStart s with EmptyString => true | _ => false end.

(** Number of leading spaces. *)
Fixpoint indentation (s : string) : nat :=
  match s with
  | String c s' => if Ascii.eqb c space then S (indentation s') else O
  | EmptyString => O
  end.

(** Last character that is not whitespace, if any. *)
Fixpoint last_visible (s : string) (seen : option ascii) : option ascii :=
  match s with
  | EmptyString => seen
  | String c s' => last_visible s' (if is_whitespace c then seen else Some c)
  end.

Definition ends_with_colon (line : string) : bool :=
  match last_visible line None with
  | Some c => Ascii.eqb c ":"%char
  | None => false
  end.

(** Running balance of an opening and a closing character. *)
Definition bump (opening closing c : ascii) (balance : Z) : Z :=
  if Ascii.eqb c opening then (balance + 1)%Z
  else if Ascii.eqb c closing then (balance - 1)%Z
  else balance.

(* ----------------------------------------------------------------- *)
(** *** SyntaxHeuristics *)

Inductive ErrorCategory := Misspelling | UnmatchedParenthesis | UnmatchedBrace.

(** [{message, position?}]; the category is the check that reported it. *)
Record SyntaxError := mkError {
  message : string;
  position : option nat;
  category : ErrorCategory
}.

(** Modelled from the spec: the typo dictionary of the absent
    [CodeAnalyzer.ts], "a small fixed dictionary of common typos per
    language"; it holds the pairs the spec names, each for the languages that
    have the keyword. *)
Definition typos (language : LanguageType) : list (string * string) :=
  match language with
  | javascript => [("fucntion", "function"); ("retunr", "return")]
  | python => [("retunr", "return")]
  end.

(** Modelled from the spec: the balance check of the absent [CodeAnalyzer.ts],
    "running balance ... a negative balance or nonzero end balance signals an
    error". *)
Fixpoint unmatched (opening closing : ascii) (s : string) (balance : Z) : bool :=
  match s with
  | EmptyString => negb (balance =? 0)%Z
  | String c s' =>
      let balance' := bump opening closing c balance in
      (balance' <? 0)%Z || unmatched opening closing s' balance'
  end.

Definition misspellings (code : string) (language : LanguageType)
  : list SyntaxError :=
  flat_map (fun entry : string * string =>
              let (typo, keyword) := entry in
              match index 0 typo code with
              | Some p => [mkError ("Misspelled keyword: " ++ keyword) (Some p)
                                   Misspelling]
              | None => []
              end) (typos language).

(** Modelled from the spec: [detectSyntaxErrors] of the absent
    [CodeAnalyzer.ts]: keyword misspellings, unmatched parentheses, unmatched
    braces; empty text yields the empty list. *)
Definition detectSyntaxErrors (code : string) (language : LanguageType)
  : list SyntaxError :=
  misspellings code language
  ++ (if unmatched "("%char ")"%char code 0
      then [mkError "Unmatched parentheses" None UnmatchedParenthesis] else [])
  ++ (if unmatched "{"%char "}"%char code 0
      then [mkError "Unmatched braces" None UnmatchedBrace] else []).

Definition category_eqb (a b : ErrorCategory) : bool :=
  match a, b with
  | Misspelling, Misspelling => true
  | UnmatchedParenthesis, UnmatchedParenthesis => true
  | UnmatchedBrace, UnmatchedBrace => true
  | _, _ => false
  end.

(** Number of distinct categories among reported errors. *)
Definition distinctCategories (errors : list SyntaxError) : nat :=
  List.length
    (filter (fun c => existsb (fun e => category_eqb (category e) c) errors)
            [Misspelling; UnmatchedParenthesis; UnmatchedBrace]).

(** Maximum of the running count of open braces. *)
Fixpoint braceDepth (s : string) (balance deepest : Z) : Z :=
  match s with
  | EmptyString => deepest
  | String c s' =>
      let balance' := bump "{"%char "}"%char c balance in
      braceDepth s' balance' (Z.max deepest balance')
  end.

(** Maximum indentation, in 4-space units, of the non-blank lines that come
    after a line ending in [:]. *)
Fixpoint indentDepth (ls : list string) (afterColon : bool) (deepest : Z) : Z :=
  match ls with
  | [] => deepest
  | l :: rest =>
      let deepest' :=
        if afterColon && negb (is_blank l)
        then Z.max deepest (Z.of_nat (indentation l / 4))
        else deepest in
      indentDepth rest (afterColon || ends_with_colon l) deepest'
  end.

(** Modelled from the spec: [calculateNestingDepth] of the absent
    [CodeAnalyzer.ts]: brace counting for brace-delimited code, indentation
    for code without braces. *)
Definition calculateNestingDepth (code : string) : Z :=
  if contains "{" code || contains "}" code then braceDepth code 0 0
  else indentDepth (lines code) false 0.

Definition is_identifier_char (c : ascii) : bool :=
  let n := nat_of_ascii c in
  ((48 <=? n) && (n <=? 57) || (65 <=? n) && (n <=? 90)
   || (97 <=? n) && (n <=? 122) || (n =? 95) || (n =? 36))%nat.

(** Splits [s] into its longest identifier prefix and the rest. *)
Fixpoint take_identifier (s : string) : string * string :=
  match s with
  | String c s' =>
      if is_identifier_char c
      then let (name, rest) := take_identifier s' in (String c name, rest)
      else (EmptyString, s)
  | EmptyString => (EmptyString, EmptyString)
  end.

Definition drop_keyword (s : string) : option string :=
  if prefix "function " s then Some (substring 9 (String.length s - 9) s)
  else if prefix "def " s then Some (substring 4 (String.length s - 4) s)
  else None.

(** [function NAME(] or [def NAME(] at the head of [s]: the name and the text
    after the parenthesis. *)
Definition declaration (s : string) : option (string * string) :=
  match drop_keyword s with
  | Some after =>
      match take_identifier after with
      | (String c name, String p rest) =>
          if Ascii.eqb p "("%char then Some (String c name, rest) else None
      | _ => None
      end
  | None => None
  end.

(** The body text of a [function] declaration: from its parameter list
    through the closing brace that matches its first opening brace. *)
Fixpoint braceBody (s : string) (depth : nat) : string :=
  match s with
  | EmptyString => EmptyString
  | String c s' =>
      if Ascii.eqb c "{"%char then String c (braceBody s' (S depth))
      else if Ascii.eqb c "}"%char
           then match depth with
                | S (S d) => String c (braceBody s' (S d))
                | _ => EmptyString
                end
           else String c (braceBody s' depth)
  end.

(** Whether the text up to the end of its first line is blank. *)
Fixpoint lineIsBlank (s : string) : bool :=
  match s with
  | EmptyString => true
  | String c s' =>
      Ascii.eqb c newline || is_whitespace c && lineIsBlank s'
  end.

(** The body text of a [def] declaration whose line is indented by [indent]:
    the rest of that line and the lines after it, up to the first line that
    is not blank and is indented no deeper (the dedent). *)
Fixpoint dedentBody (indent : nat) (s : string) : string :=
  match s with
  | EmptyString => EmptyString
  | String c s' =>
      if Ascii.eqb c newline
      then if lineIsBlank s' || (indent <? indentation s')%nat
           then String c (dedentBody indent s')
           else EmptyString
      else String c (dedentBody indent s')
  end.

(** The scan for declarations; [indent] counts the leading spaces of the
    line being read and [leading] tells whether only such spaces were read
    on it. *)
Fixpoint recursionFrom (code : string) (indent : nat) (leading : bool) : bool :=
  match code with
  | EmptyString => false
  | String c code' =>
      match declaration code with
      | Some (name, rest) =>
          contains (name ++ "(")
                   (if prefix "def " code then dedentBody indent rest
                    else braceBody rest 0)
      | None => false
      end
      || (if Ascii.eqb c newline then recursionFrom code' 0 true
          else if leading && Ascii.eqb c space
               then recursionFrom code' (S indent) true
               else recursionFrom code' indent false)
  end.

(** Modelled from the spec: [detectRecursion] of the absent [CodeAnalyzer.ts]:
    a name declared by [function NAME(] or [def NAME(] that occurs as a call
    [NAME(] in the body text of that same function, which ends at the
    matching closing brace for [function] and at the dedent for [def]. *)
Definition detectRecursion (code : string) : bool := recursionFrom code 0 true.

Fixpoint hasBlockComment (code : string) : bool :=
  match code with
  | EmptyString => false
  | String _ code' =>
      prefix "/*" code && contains "*/" code' || hasBlockComment code'
  end.

(** Modelled from the spec: [detectComments] of the absent [CodeAnalyzer.ts]:
    any of the three marker forms [//], [/* */], [#]. *)
Definition detectComments (code : string) : bool :=
  contains "//" code || hasBlockComment code || contains "#" code.

(* ----------------------------------------------------------------- *)
(** *** MoodClassifier: the [analyze] listing of the design document *)

Definition analyze (code : string) (language : LanguageType) : MoodData :=
  let errors := detectSyntaxErrors code language in
  let nestingDepth := calculateNestingDepth code in
  let hasRecursion := detectRecursion code in
  let hasComments := detectComments code in
  let '(mood, rootKey, intensity) :=
    if (0 <? List.length errors)%nat then (DISCORDANT, "Dm", 0.8)
    else if hasComments && (nestingDepth <=? 2)%Z then (HARMONIOUS, "C", 0.3)
    else if hasRecursion || (4 <? nestingDepth)%Z then (INTENSE, "Am", 0.9)
    else (HARMONIOUS, "G", 0.5) in
  let tempo := 60 + (intensity * 120) in
  mkMoodData tempo rootKey intensity mood.

(* ----------------------------------------------------------------- *)
(** *** CompositionPlanner *)

Inductive LineKind := K_import | K_function | K_return | K_other.

(** Modelled from the spec: the line patterns of the planner of the absent
    [CodeAnalyzer.ts]: [import] / [from ... import] statements, [function] /
    [def] declarations, [return] statements, anything else. *)
Definition classify (line : string) : LineKind :=
  let t := trimStart line in
  if prefix "import " t || prefix "from " t && contains " import " t
  then K_import
  else if contains "function " t || prefix "def " t then K_function
  else if prefix "return" t then K_return
  else K_other.

Definition kindType (k : LineKind) : SectionType :=
  match k with
  | K_import => T_import
  | K_function => T_function
  | K_return => T_return
  | K_other => T_other
  end.

(** A section before its musical parameters are assigned. *)
Record Span := mkSpan {
  span_type : SectionType;
  span_start : nat;
  span_end : nat
}.

Definition extend (s : Span) (n : nat) : Span :=
  mkSpan (span_type s) (span_start s) n.

(** How the function being read ends: by its matching closing brace, or by
    the first line indented no deeper than its [def]. *)
Inductive FunctionEnd :=
  | ByBrace (balance : Z) (opened : bool)
  | ByDedent (defIndent : nat).

Record Scan := mkScan {
  finished : list Span;           (* latest first *)
  current : option Span;
  enclosing : option FunctionEnd  (* [None] outside every function *)
}.

Definition close (sc : Scan) : list Span :=
  match current sc with
  | Some s => s :: finished sc
  | None => finished sc
  end.

(** Whether a line of kind [k] prolongs an open section of type [t]: runs of
    imports, runs of unclassified code, and the lines trailing a [return]. *)
Definition continues (k : LineKind) (t : SectionType) : bool :=
  match k, t with
  | K_import, T_import => true
  | K_return, T_return => true
  | K_other, T_other => true
  | K_other, T_return => true
  | _, _ => false
  end.

Fixpoint braceBalance (s : string) (balance : Z) : Z :=
  match s with
  | EmptyString => balance
  | String c s' => braceBalance s' (bump "{"%char "}"%char c balance)
  end.

Definition enterFunction (language : LanguageType) (line : string)
  : FunctionEnd :=
  match language with
  | javascript => ByBrace (braceBalance line 0) (contains "{" line)
  | python => ByDedent (indentation line)
  end.

Definition readInside (fe : FunctionEnd) (line : string) : FunctionEnd :=
  match fe with
  | ByBrace b opened => ByBrace (braceBalance line b) (opened || contains "{" line)
  | ByDedent i => ByDedent i
  end.

Definition functionClosed (fe : FunctionEnd) : bool :=
  match fe with
  | ByBrace b opened => opened && (b <=? 0)%Z
  | ByDedent _ => false
  end.

Definition dedented (fe : FunctionEnd) (line : string) : bool :=
  match fe with
  | ByDedent i => (indentation line <=? i)%nat
  | ByBrace _ _ => false
  end.

(** Leaves the function once its closing brace has been read. *)
Definition settle (sc : Scan) : Scan :=
  match enclosing sc with
  | Some fe => if functionClosed fe then mkScan (close sc) None None else sc
  | None => sc
  end.

(** Modelled from the spec: the scan of the planner of the absent
    [CodeAnalyzer.ts] outside every function: a run of imports is one
    section, a declaration opens a function section, a [return] statement
    opens a return section that takes the lines trailing it, other code forms
    other sections. *)
Definition topStep (language : LanguageType) (n : nat) (line : string)
  (sc : Scan) : Scan :=
  let k := classify line in
  match k with
  | K_function =>
      settle (mkScan (close sc) (Some (mkSpan T_function n n))
                     (Some (enterFunction language line)))
  | _ =>
      match current sc with
      | Some s =>
          if continues k (span_type s)
          then mkScan (finished sc) (Some (extend s n)) None
          else mkScan (s :: finished sc) (Some (mkSpan (kindType k) n n)) None
      | None => mkScan (finished sc) (Some (mkSpan (kindType k) n n)) None
      end
  end.

(** Modelled from the spec: the scan of the planner of the absent
    [CodeAnalyzer.ts] inside a function, which runs through its matching
    closing brace or to the dedent: a [return] statement ends the function
    section and opens the return section, which runs to the function's end. *)
Definition innerStep (n : nat) (line : string) (fe : FunctionEnd) (sc : Scan)
  : Scan :=
  let fe' := readInside fe line in
  settle
    match current sc, classify line with
    | Some s, K_return =>
        match span_type s with
        | T_function =>
            mkScan (s :: finished sc) (Some (mkSpan T_return n n)) (Some fe')
        | _ => mkScan (finished sc) (Some (extend s n)) (Some fe')
        end
    | Some s, _ => mkScan (finished sc) (Some (extend s n)) (Some fe')
    | None, _ => mkScan (finished sc) (Some (mkSpan T_function n n)) (Some fe')
    end.

Definition scanLine (language : LanguageType) (sc : Scan) (n : nat)
  (line : string) : Scan :=
  if is_blank line then sc
  else match enclosing sc with
       | Some fe =>
           if dedented fe line
           then topStep language n line (mkScan (close sc) None None)
           else innerStep n line fe sc
       | None => topStep language n line sc
       end.

Fixpoint scanLines (language : LanguageType) (ls : list string) (n : nat)
  (sc : Scan) : Scan :=
  match ls with
  | [] => sc
  | l :: rest => scanLines language rest (S n) (scanLine language sc n l)
  end.

(** Modelled from the spec: the sections of a text in source order, by the
    top-to-bottom scan of the absent [CodeAnalyzer.ts]; blank lines start and
    end nothing, lines are numbered from 1. *)
Definition spans (code : string) (language : LanguageType) : list Span :=
  rev (close (scanLines language (lines code) 1 (mkScan [] None None))).

Definition lineCount (s : Span) : nat := span_end s - span_start s + 1.

Definition budget : Q := 15.

Definition Qsum (l : list Q) : Q := fold_right Qplus 0 l.

Definition Qmaximum (a b : Q) : Q := if Qle_bool a b then b else a.

Definition ofNat (n : nat) : Q := inject_Z (Z.of_nat n).

(** Proportional share of the budget, raised to the floor of the section
    type. *)
Definition naiveShare (floors : SectionType -> Q) (total : nat) (s : Span) : Q :=
  Qmaximum (floors (span_type s)) (budget * ofNat (lineCount s) / ofNat total).

Definition naiveAllocation (floors : SectionType -> Q) (sp : list Span)
  : list Q :=
  map (naiveShare floors (list_sum (map lineCount sp))) sp.

(** Modelled from the spec: the duration allocation of the absent
    [CodeAnalyzer.ts]: shares proportional to the line count with floors per
    section type; when their sum exceeds the budget every share is scaled by
    the one factor [budget / sum].  The floors are not given by the spec and
    are a parameter. *)
Definition allocateDurations (floors : SectionType -> Q) (sp : list Span)
  : list Q :=
  let naive := naiveAllocation floors sp in
  let s := Qsum naive in
  if Qle_bool s budget then naive
  else map (fun d => d * (budget / s)) naive.

Definition majorScale : list string := ["C4"; "D4"; "E4"; "F4"; "G4"; "A4"; "B4"].
Definition minorScale : list string := ["A3"; "B3"; "C4"; "D4"; "E4"; "F4"; "G4"].

Definition degrees (scale : list string) (ds : list nat) : list string :=
  map (fun d => nth d scale "C4") ds.

(** Modelled from the spec: the note generation of the absent
    [CodeAnalyzer.ts]: chord tones for imports, the walked scale for
    functions, the triad root-3rd-5th for returns, from the major scale for a
    HARMONIOUS text and the minor scale otherwise. *)
Definition notesFor (m : MoodState) (t : SectionType) : list string :=
  let scale := match m with HARMONIOUS => majorScale | _ => minorScale end in
  match t with
  | T_import => degrees scale [0; 4]%nat
  | T_function => scale
  | T_return => degrees scale [0; 2; 4]%nat
  | _ => degrees scale [0; 2]%nat
  end.

(** Modelled from the spec: the instrument mapping of the absent
    [CodeAnalyzer.ts]: [import -> rhythm], [function -> melody],
    [return -> harmony], the others in turn. *)
Definition instrumentFor (index : nat) (t : SectionType) : InstrumentType :=
  match t with
  | T_import => rhythm
  | T_function => melody
  | T_return => harmony
  | _ => match (index mod 3)%nat with
         | O => rhythm
         | S O => harmony
         | _ => melody
         end
  end.

Fixpoint assemble (m : MoodData) (index : nat) (sp : list Span) (ds : list Q)
  : list CompositionSection :=
  match sp, ds with
  | s :: sp', d :: ds' =>
      mkSection (span_type s) (span_start s) (span_end s) d
                (notesFor (mood m) (span_type s)) (tempo m)
                (instrumentFor index (span_type s))
      :: assemble m (S index) sp' ds'
  | _, _ => []
  end.

(** Modelled from the spec: [analyzeForComposition] of the absent
    [CodeAnalyzer.ts]: the text is cut top to bottom into import, function,
    return and other sections, each given a share of the 15 seconds, notes of
    the scale of the overall mood, a tempo and an instrument. *)
Definition analyzeForComposition (floors : SectionType -> Q) (code : string)
  (language : LanguageType) : list CompositionSection :=
  let sp := spans code language in
  assemble (analyze code language) 0 sp (allocateDurations floors sp).

(** [sections.reduce((sum, s) => sum + s.duration, 0)] *)
Definition totalDuration (sections : list CompositionSection) : Q :=
  fold_left (fun sum s => sum + duration s) sections 0.

(** [Math.round] *)
Definition round (x : Q) : Z := Qfloor (x + (1 # 2)).

(** [s.endsWith(suffix)] *)
Definition endsWith (s suffix : string) : bool :=
  (String.length suffix <=? String.length s)%nat
  && String.eqb (substring (String.length s - String.length suffix)
                           (String.length suffix) s) suffix.

End CodeAnalyzer.

(* ================================================================= *)
(** ** Notions used to state the properties *)

Local Open Scope list_scope.

(** The transport with further events put on its timeline. *)
Definition withEvents (tr : Transport) (evs : list ScheduledEvent) : Transport :=
  mkTransport (state tr) (bpm tr) (timeline tr ++ evs) (pendingStop tr).

(** What a scheduling computation puts on an empty timeline. *)
Definition emitted (c : M unit) : list ScheduledEvent :=
  timeline (exec c (idle 0)).

(** A computation that does nothing but schedule events, the same ones
    whatever the transport holds. *)
Definition appends (c : M unit) : Prop :=
  forall tr, c tr = (tt, withEvents tr (emitted c)).

(** Cumulative duration of the sections before the [i]-th, summed in the
    order [currentTime += duration] does. *)
Definition startTimeOf (sections : list CompositionSection) (i : nat) : Q :=
  fold_left Qplus (map duration (firstn i sections)) 0.

Definition indexed {A} (xs : list A) : list (nat * A) :=
  combine (seq 0 (List.length xs)) xs.

Definition isMelody (e : ScheduledEvent) : bool :=
  match target (ev_callback e) with melody => true | _ => false end.

(** The first two statements of [playCommitComposition]. *)
Definition cancelPrevious : M unit := transport_stop ;; transport_cancel.

(** The [k]-th lead note of a function section. *)
Definition leadNote (startTime duration : Q) (count k : nat) (note : string)
  : ScheduledEvent :=
  mkEvent (startTime + InstrumentManager.num k
                       * (duration / InstrumentManager.num count))
          (mkTrigger melody (Note note) (Notation_ "8n")).

(** The scaling of the error intensity that [analyze] would need for its
    intensity to grow with the number of distinct error categories, up to the
    cap 1.0. *)
Definition IntensityGrowsWithCategories : Prop :=
  forall (code1 code2 : string) (language : LanguageType),
    let errors1 := CodeAnalyzer.detectSyntaxErrors code1 language in
    let errors2 := CodeAnalyzer.detectSyntaxErrors code2 language in
    errors1 <> [] -> errors2 <> [] ->
    (CodeAnalyzer.distinctCategories errors1
     < CodeAnalyzer.distinctCategories errors2)%nat ->
    intensity (CodeAnalyzer.analyze code1 language)
    < intensity (CodeAnalyzer.analyze code2 language)
    \/ intensity (CodeAnalyzer.analyze code2 language) == 1.

(** Spans listed latest first, each ending before the next one up starts and
    all before line [n]. *)
Fixpoint chain (n : nat) (l : list CodeAnalyzer.Span) : Prop :=
  match l with
  | [] => True
  | s :: l' =>
      (CodeAnalyzer.span_start s <= CodeAnalyzer.span_end s)%nat
      /\ (CodeAnalyzer.span_end s < n)%nat
      /\ chain (CodeAnalyzer.span_start s) l'
  end.

(** A line either leaves the sections as they are, or opens a section on
    that line, or prolongs the open section to that line. *)
Inductive LineEffect (n : nat) (sc : CodeAnalyzer.Scan)
  (after : list CodeAnalyzer.Span) : Prop :=
  | Unchanged :
      after = CodeAnalyzer.close sc -> LineEffect n sc after
  | Opened t :
      after = CodeAnalyzer.mkSpan t n n :: CodeAnalyzer.close sc ->
      LineEffect n sc after
  | Prolonged s :
      CodeAnalyzer.current sc = Some s ->
      after = CodeAnalyzer.extend s n :: CodeAnalyzer.finished sc ->
      LineEffect n sc after.

Definition extent (s : CompositionSection) : nat * nat :=
  (startLine s, endLine s).

Definition spanExtent (s : CodeAnalyzer.Span) : nat * nat :=
  (CodeAnalyzer.span_start s, CodeAnalyzer.span_end s).

(* ----------------------------------------------------------------- *)
(** *** Sample texts, from the unit tests of the analyzer *)

Module Samples.

Definition cleanCode : string := "function hello() { return true; }".

Definition errorCode : string := "fucntion helo( { retunr false }".

Definition unmatchedCode : string := "function hello( { return false; }".

Definition commentedRecursion : string :=
  "// countdown
function down(n) { return down(n - 1); }".

Definition factorialCode : string := "
        function factorial(n) {
          if (n <= 1) return 1;
          return n * factorial(n - 1);
        }
      ".

Definition moduleCode : string := "
        import React from 'react';
        function hello() {
          return true;
        }
      ".

(** Floors so high that the proportional shares have to be scaled down. *)
Definition highFloors (t : SectionType) : Q := 20.

(** One second for imports, nothing for the others. *)
Definition importFloor (t : SectionType) : Q :=
  match t with T_import => 1 | _ => 0 end.

Definition noSection : CompositionSection :=
  mkSection T_other 0 0 0 [] 0 rhythm.

Definition melodySection : CompositionSection :=
  mkSection T_function 3 5 2 ["C4"; "E4"; "G4"; "C5"] 96 melody.

Definition calmSection : CompositionSection :=
  mkSection T_import 1 2 3 ["C4"; "G4"] 96 rhythm.

Definition tenseSection : CompositionSection :=
  mkSection T_return 6 7 1 ["A3"; "C4"; "E4"] 156 harmony.

End Samples.

(* ----------------------------------------------------------------- *)
(** *** Tactics *)

Ltac closed_Q := vm_compute; first [reflexivity | discriminate].

Ltac decide_case :=
  repeat split;
  first [ reflexivity
        | lia
        | left; reflexivity
        | right; lia
        | intros [? ?]; (congruence || lia)
        | intros [? | ?]; (congruence || lia) ].

(* ================================================================= *)
(** ** [utils/performanceMonitor.ts] *)

Module PerformanceMonitor.

Record PerformanceMetrics := mkMetrics {
  analysisTime : list Q;
  renderTime : list Q;
  audioLatency : list Q
}.

Record Monitor := mkMonitor {
  metrics : PerformanceMetrics;
  enabled : bool
}.

Definition maxSamples : nat := 100.

(** The singleton as constructed. *)
Definition initial : Monitor := mkMonitor (mkMetrics [] [] []) false.

Definition enable (pm : Monitor) : Monitor := mkMonitor (metrics pm) true.

Definition disable (pm : Monitor) : Monitor := mkMonitor (metrics pm) false.

(** [arr.push(d); if (arr.length > this.maxSamples) arr.shift()] *)
Definition pushSample (arr : list Q) (d : Q) : list Q :=
  let arr' := arr ++ [d] in
  if (maxSamples <? List.length arr')%nat then tl arr' else arr'.

Definition recordAnalysisTime (d : Q) (pm : Monitor) : Monitor :=
  if negb (enabled pm) then pm
  else mkMonitor (mkMetrics (pushSample (analysisTime (metrics pm)) d)
                            (renderTime (metrics pm))
                            (audioLatency (metrics pm)))
                 (enabled pm).

Definition recordRenderTime (d : Q) (pm : Monitor) : Monitor :=
  if negb (enabled pm) then pm
  else mkMonitor (mkMetrics (analysisTime (metrics pm))
                            (pushSample (renderTime (metrics pm)) d)
                            (audioLatency (metrics pm)))
                 (enabled pm).

Definition recordAudioLatency (d : Q) (pm : Monitor) : Monitor :=
  if negb (enabled pm) then pm
  else mkMonitor (mkMetrics (analysisTime (metrics pm))
                            (renderTime (metrics pm))
                            (pushSample (audioLatency (metrics pm)) d))
                 (enabled pm).

(** [arr.reduce((sum, val) => sum + val, 0)] *)
Definition total (arr : list Q) : Q := fold_left Qplus arr 0.

Definition count (arr : list Q) : Q := inject_Z (Z.of_nat (List.length arr)).

(** Sum and quotient are exact here, where the source rounds each addition
    and the division to a double. *)
Definition getAverage (arr : list Q) : Q :=
  if (List.length arr =? 0)%nat then 0 else total arr / count arr.

(** [[...arr].sort((a, b) => a - b)]: the sort is stable, so its result is
    the one of a stable insertion sort. *)
Fixpoint insertSorted (x : Q) (l : list Q) : list Q :=
  match l with
  | [] => [x]
  | y :: l' => if Qle_bool x y then x :: y :: l' else y :: insertSorted x l'
  end.

Fixpoint sortAscending (arr : list Q) : list Q :=
  match arr with
  | [] => []
  | x :: arr' => insertSorted x (sortAscending arr')
  end.

(** [sorted[index]] is [undefined] out of range: [None].  The index is the
    floor of the exact product, where the source floors the product rounded
    to a double. *)
Definition getPercentile (arr : list Q) (percentile : Q) : option Q :=
  if (List.length arr =? 0)%nat then Some 0
  else
    let sorted := sortAscending arr in
    let index := Qfloor (count sorted * percentile) in
    if (index <? 0)%Z then None else nth_error sorted (Z.to_nat index).

(** The division [1000 / avg] of JavaScript is [Infinity] for [avg = 0]:
    [None]. *)
Definition framesPerSecond (arr : list Q) : option Q :=
  if (0 <? List.length arr)%nat
  then if Qeq_bool (getAverage arr) 0 then None
       else Some (1000 / getAverage arr)
  else Some 0.

Record Timing := mkTiming {
  avg : Q;
  p95 : option Q;
  fps : option Q
}.

Record Report := mkReport {
  analysis : Timing;
  render : Timing;
  audio : Q * option Q
}.

Definition getReport (pm : Monitor) : Report :=
  let m := metrics pm in
  mkReport
    (mkTiming (getAverage (analysisTime m))
              (getPercentile (analysisTime m) 0.95)
              (framesPerSecond (analysisTime m)))
    (mkTiming (getAverage (renderTime m))
              (getPercentile (renderTime m) 0.95)
              (framesPerSecond (renderTime m)))
    (getAverage (audioLatency m), getPercentile (audioLatency m) 0.95).

Definition clear (pm : Monitor) : Monitor :=
  mkMonitor (mkMetrics [] [] []) (enabled pm).

(** The calls a client can make, to speak of sequences of them. *)
Inductive Call :=
  | Enable
  | Disable
  | RecordAnalysisTime (d : Q)
  | RecordRenderTime (d : Q)
  | RecordAudioLatency (d : Q)
  | Clear.

Definition perform (pm : Monitor) (c : Call) : Monitor :=
  match c with
  | Enable => enable pm
  | Disable => disable pm
  | RecordAnalysisTime d => recordAnalysisTime d pm
  | RecordRenderTime d => recordRenderTime d pm
  | RecordAudioLatency d => recordAudioLatency d pm
  | Clear => clear pm
  end.

Definition performAll (calls : list Call) (pm : Monitor) : Monitor :=
  fold_left perform calls pm.

Definition isEnable (c : Call) : bool :=
  match c with Enable => true | _ => false end.

(** The three sample arrays hold at most [maxSamples] values. *)
Definition bounded (pm : Monitor) : Prop :=
  (List.length (analysisTime (metrics pm)) <= maxSamples)%nat
  /\ (List.length (renderTime (metrics pm)) <= maxSamples)%nat
  /\ (List.length (audioLatency (metrics pm)) <= maxSamples)%nat.

End PerformanceMonitor.

(* ================================================================= *)
(** ** [InstrumentManager]: live playback

    [triggerAttackRelease] called outside a transport callback sounds at the
    audio-clock time it is given; the calls are recorded in order. *)

Module LivePlayback.

(** The four synthesizers of the class. *)
Inductive Voice := rhythmInstrument | harmonyInstrument | melodyInstrument | errorSynth.

Record Sound := mkSound {
  voice : Voice;
  sound_pitch : ToneNotes;
  sound_held : ToneTime;
  sound_time : Q
}.

Record Engine := mkEngine {
  transport : Transport;
  sounded : list Sound
}.

Definition triggerAttackRelease (v : Voice) (p : ToneNotes) (h : ToneTime)
  (time : Q) (e : Engine) : Engine :=
  mkEngine (transport e) (sounded e ++ [mkSound v p h time]).

(** [Tone.getTransport().bpm.value = v] *)
Definition setTempo (v : Q) (e : Engine) : Engine :=
  mkEngine (exec (set_bpm v) (transport e)) (sounded e).

(** [key.replace('m', '')]: a string pattern replaces its first occurrence. *)
Fixpoint removeFirst (c : ascii) (s : string) : string :=
  match s with
  | EmptyString => EmptyString
  | String d s' => if Ascii.eqb d c then s' else String d (removeFirst c s')
  end.

Definition isDigit (c : ascii) : bool :=
  let n := nat_of_ascii c in ((48 <=? n) && (n <=? 57))%nat.

(** [s.match(/\d/)] as a condition *)
Fixpoint hasDigit (s : string) : bool :=
  match s with
  | EmptyString => false
  | String c s' => isDigit c || hasDigit s'
  end.

Definition normalizeKey (key : string) : string :=
  let cleanKey := removeFirst "m"%char key in
  if hasDigit cleanKey then cleanKey else (cleanKey ++ "4")%string.

Definition majorIntervals : list Z := [0; 2; 4; 5; 7; 9; 11]%Z.
Definition minorIntervals : list Z := [0; 2; 3; 5; 7; 8; 10]%Z.

(** [notes[i]] of the seven notes of a scale *)
Definition degree (notes : list string) (i : nat) : string := nth i notes "".

Section WithTone.

(** [Tone.Frequency(note).transpose(semitones).toNote()] of the audio
    library. *)
Variable toneTranspose : string -> Z -> string.

Definition transposeNote (note : string) (semitones : Z) : string :=
  toneTranspose note semitones.

Definition transposeOctave (note : string) (octaves : Z) : string :=
  toneTranspose note (octaves * 12)%Z.

Definition getMajorScaleNotes (rootKey : string) : list string :=
  let root := normalizeKey rootKey in
  map (fun interval => transposeNote root interval) majorIntervals.

Definition getMinorScaleNotes (rootKey : string) : list string :=
  let root := normalizeKey rootKey in
  map (fun interval => transposeNote root interval) minorIntervals.

Definition playDiscordantMood (data : MoodData) (now : Q) (e : Engine) : Engine :=
  let notes := getMinorScaleNotes (rootKey data) in
  let e := triggerAttackRelease rhythmInstrument (Note "C1") (Notation_ "8n") now e in
  let e := triggerAttackRelease rhythmInstrument (Note "C1") (Notation_ "16n")
             (now + 0.15) e in
  let dissonantChord := [degree notes 0; degree notes 1; degree notes 6] in
  let e := triggerAttackRelease harmonyInstrument (Chord dissonantChord)
             (Notation_ "2n") (now + 0.1) e in
  let e := triggerAttackRelease melodyInstrument (Note (degree notes 0))
             (Notation_ "16n") (now + 0.2) e in
  triggerAttackRelease melodyInstrument (Note (degree notes 1))
    (Notation_ "16n") (now + 0.3) e.

Definition playHarmoniousMood (data : MoodData) (now : Q) (e : Engine) : Engine :=
  let notes := getMajorScaleNotes (rootKey data) in
  let e := triggerAttackRelease rhythmInstrument (Note "C2") (Notation_ "4n") now e in
  let majorChord := [degree notes 0; degree notes 2; degree notes 4] in
  let e := triggerAttackRelease harmonyInstrument (Chord majorChord)
             (Notation_ "2n") (now + 0.1) e in
  let e := triggerAttackRelease melodyInstrument (Note (degree notes 0))
             (Notation_ "8n") (now + 0.2) e in
  let e := triggerAttackRelease melodyInstrument (Note (degree notes 2))
             (Notation_ "8n") (now + 0.4) e in
  triggerAttackRelease melodyInstrument (Note (degree notes 4))
    (Notation_ "4n") (now + 0.6) e.

Definition playIntenseMood (data : MoodData) (now : Q) (e : Engine) : Engine :=
  let notes := getMinorScaleNotes (rootKey data) in
  let e := triggerAttackRelease rhythmInstrument (Note "C1") (Notation_ "16n") now e in
  let e := triggerAttackRelease rhythmInstrument (Note "C1") (Notation_ "16n")
             (now + 0.1) e in
  let e := triggerAttackRelease rhythmInstrument (Note "C1") (Notation_ "16n")
             (now + 0.2) e in
  let intenseChord := [degree notes 0; degree notes 3; degree notes 5] in
  let e := triggerAttackRelease harmonyInstrument (Chord intenseChord)
             (Notation_ "4n") (now + 0.05) e in
  let highNotes := map (fun note => transposeOctave note 1) notes in
  let e := triggerAttackRelease melodyInstrument (Note (degree highNotes 0))
             (Notation_ "16n") (now + 0.1) e in
  let e := triggerAttackRelease melodyInstrument (Note (degree highNotes 2))
             (Notation_ "16n") (now + 0.2) e in
  triggerAttackRelease melodyInstrument (Note (degree highNotes 4))
    (Notation_ "16n") (now + 0.3) e.

(** [now] is the value [Tone.now()] returns at the call. *)
Definition playMood (now : Q) (data : MoodData) (e : Engine) : Engine :=
  let e := setTempo (tempo data) e in
  match mood data with
  | DISCORDANT => playDiscordantMood data now e
  | HARMONIOUS => playHarmoniousMood data now e
  | INTENSE => playIntenseMood data now e
  end.

End WithTone.

(** [pleasantNotes.forEach((note, index) => ...)] *)
Fixpoint arpeggio (v : Voice) (h : ToneTime) (now step : Q) (index : nat)
  (notes : list string) (e : Engine) : Engine :=
  match notes with
  | [] => e
  | note :: rest =>
      let time := now + (InstrumentManager.num index * step) in
      arpeggio v h now step (S index) rest
        (triggerAttackRelease v (Note note) h time e)
  end.

Definition playPleasantSound (now : Q) (e : Engine) : Engine :=
  let pleasantNotes := ["C5"; "E5"; "G5"] in
  let e := arpeggio melodyInstrument (Notation_ "16n") now 0.08 0 pleasantNotes e in
  let e := triggerAttackRelease melodyInstrument (Note "C6") (Notation_ "8n")
             (now + 0.24) e in
  triggerAttackRelease harmonyInstrument (Chord ["C4"; "E4"; "G4"])
    (Notation_ "4n") now e.

Definition playUnpleasantSound (now : Q) (e : Engine) : Engine :=
  let dissonantNotes := ["C3"; "Db3"; "F#3"] in
  let e := arpeggio errorSynth (Notation_ "8n") now 0.05 0 dissonantNotes e in
  let e := triggerAttackRelease rhythmInstrument (Note "C1") (Notation_ "32n") now e in
  let e := triggerAttackRelease rhythmInstrument (Note "C1") (Notation_ "32n")
             (now + 0.08) e in
  triggerAttackRelease harmonyInstrument (Chord ["C2"; "Db2"; "D2"])
    (Notation_ "16n") (now + 0.05) e.

(** [playCommitComposition] on the transport of the engine. *)
Definition playCommitComposition (sections : list CompositionSection)
  (e : Engine) : Engine :=
  mkEngine (exec (InstrumentManager.playCommitComposition sections) (transport e))
           (sounded e).

(** The sounds a call adds. *)
Definition added (before after : Engine) : list Sound :=
  skipn (List.length (sounded before)) (sounded after).

End LivePlayback.

(* ================================================================= *)
(** ** [contexts/AudioEngineContext.tsx]: the callbacks of the provider *)

Module AudioEngineContext.

Import LivePlayback.

Record State := mkState {
  isBugsMuted : bool;
  initialized : bool;             (* [instrumentManagerRef.current] is set *)
  audioError : option string;
  currentMood : option MoodData;
  contextRunning : bool;          (* [Tone.context.state === 'running'] *)
  engine : Engine;
  monitor : PerformanceMonitor.Monitor
}.

Definition setAudioError (msg : string) (st : State) : State :=
  mkState (isBugsMuted st) (initialized st) (Some msg) (currentMood st)
          (contextRunning st) (engine st) (monitor st).

Definition setCurrentMood (m : option MoodData) (st : State) : State :=
  mkState (isBugsMuted st) (initialized st) (audioError st) m
          (contextRunning st) (engine st) (monitor st).

Definition setContextRunning (st : State) : State :=
  mkState (isBugsMuted st) (initialized st) (audioError st) (currentMood st)
          true (engine st) (monitor st).

Definition onEngine (f : Engine -> Engine) (st : State) : State :=
  mkState (isBugsMuted st) (initialized st) (audioError st) (currentMood st)
          (contextRunning st) (f (engine st)) (monitor st).

Definition onMonitor (f : PerformanceMonitor.Monitor -> PerformanceMonitor.Monitor)
  (st : State) : State :=
  mkState (isBugsMuted st) (initialized st) (audioError st) (currentMood st)
          (contextRunning st) (engine st) (f (monitor st)).

(** [startFailure] is what [Tone.start()] does when it is called: [None] if
    it resolves, [Some msg] if it rejects with an error of message [msg].
    The result says whether [ensureAudioStarted] threw, and with what
    message. *)
Definition ensureAudioStarted (startFailure : option string) (st : State)
  : State * option string :=
  if contextRunning st then (st, None)
  else match startFailure with
       | None => (setContextRunning st, None)
       | Some msg =>
           (setAudioError ("Failed to start audio context: " ++ msg) st,
            Some msg)
       end.

Section WithTone.

Variable toneTranspose : string -> Z -> string.

(** [now] is [Tone.now()] at the call of the instrument manager, [latency]
    the difference of the two [performance.now()] readings. *)
Definition playMood (startFailure : option string) (now latency : Q)
  (data : MoodData) (st : State) : State :=
  if negb (initialized st) then st
  else
    match ensureAudioStarted startFailure st with
    | (st, Some msg) => setAudioError ("Error playing mood: " ++ msg) st
    | (st, None) =>
        let st := setCurrentMood (Some data) st in
        match mood data, isBugsMuted st with
        | DISCORDANT, true => st
        | _, _ =>
            let st := onEngine (LivePlayback.playMood toneTranspose now data) st in
            onMonitor (PerformanceMonitor.recordAudioLatency latency) st
        end
    end.

End WithTone.

Definition playCommitComposition (startFailure : option string)
  (sections : list CompositionSection) (st : State) : State :=
  if negb (initialized st) then st
  else
    match ensureAudioStarted startFailure st with
    | (st, Some msg) =>
        setAudioError ("Error playing commit composition: " ++ msg) st
    | (st, None) => onEngine (LivePlayback.playCommitComposition sections) st
    end.

Definition toggleMuteBugs (st : State) : State :=
  mkState (negb (isBugsMuted st)) (initialized st) (audioError st)
          (currentMood st) (contextRunning st) (engine st) (monitor st).

Definition playPleasantSound (startFailure : option string) (now : Q)
  (st : State) : State :=
  if negb (initialized st) then st
  else
    match ensureAudioStarted startFailure st with
    | (st, Some msg) => setAudioError ("Error playing pleasant sound: " ++ msg) st
    | (st, None) => onEngine (LivePlayback.playPleasantSound now) st
    end.

Definition playUnpleasantSound (startFailure : option string) (now : Q)
  (st : State) : State :=
  if negb (initialized st) then st
  else
    match ensureAudioStarted startFailure st with
    | (st, Some msg) =>
        setAudioError ("Error playing unpleasant sound: " ++ msg) st
    | (st, None) =>
        if isBugsMuted st then st
        else onEngine (LivePlayback.playUnpleasantSound now) st
    end.


End AudioEngineContext.

(* ================================================================= *)
(** ** [hooks/useKeyboardShortcuts.ts] *)

Module KeyboardShortcuts.

Record KeyboardEvent := mkKey {
  ctrlKey : bool;
  metaKey : bool;
  key : string
}.

(** The handler a key press invokes; each comes with [preventDefault] and
    [stopPropagation]. *)
Inductive Shortcut := onPlayCommit | onToggleMute | onClearEditor.

Definition handleKeyDown (event : KeyboardEvent) : list Shortcut :=
  let modifier := ctrlKey event || metaKey event in
  (if modifier && String.eqb (key event) "Enter" then [onPlayCommit] else [])
  ++ (if modifier && (String.eqb (key event) "m" || String.eqb (key event) "M")
      then [onToggleMute] else [])
  ++ (if modifier && (String.eqb (key event) "k" || String.eqb (key event) "K")
      then [onClearEditor] else []).

End KeyboardShortcuts.

(* ================================================================= *)
(** ** Text helpers of JavaScript, on ASCII text *)

Module JsString.

(** The ASCII characters [trim] removes and [\s] matches.  The code points
    above 127 that JavaScript also takes for white space (the no-break
    space, the line and paragraph separators, the byte order mark) are not
    characters of these strings. *)
Definition isWhiteSpace (c : ascii) : bool :=
  let n := nat_of_ascii c in
  ((9 <=? n) && (n <=? 13) || (n =? 32))%nat.

Fixpoint trimStart (s : string) : string :=
  match s with
  | EmptyString => EmptyString
  | String c s' => if isWhiteSpace c then trimStart s' else s
  end.

Fixpoint trimEnd (s : string) : string :=
  match s with
  | EmptyString => EmptyString
  | String c s' =>
      match trimEnd s' with
      | EmptyString => if isWhiteSpace c then EmptyString else String c EmptyString
      | rest => String c rest
      end
  end.

Definition trim (s : string) : string := trimEnd (trimStart s).

(** [!code || code.trim().length === 0] *)
Definition isBlank (code : string) : bool :=
  (String.length code =? 0)%nat || (String.length (trim code) =? 0)%nat.

(** [Math.round]: to the nearest integer, halves upwards. *)
Definition mathRound (x : Q) : Z := Qfloor (x + (1 # 2)).

End JsString.

(* ================================================================= *)
(** ** [components/EditorPanel.tsx]: analysis and commit handlers

    [analyze] and [analyzeForComposition] are imported from the analyzer
    service and are parameters here. *)

Module EditorPanel.

Section WithServices.

Variable toneTranspose : string -> Z -> string.
Variable analyze : string -> LanguageType -> MoodData.
Variable analyzeForComposition : string -> LanguageType -> list CompositionSection.




End WithServices.

End EditorPanel.

(* ================================================================= *)
(** ** [utils/languageDetector.ts] *)

Module LanguageDetector.

Record RegExp := mkRegExp {
  source : string;
  flags : string
}.

Record LanguageSignature := mkSignature {
  language : LanguageType;
  keywords : list string;
  patterns : list RegExp
}.

Definition pythonSignature : LanguageSignature :=
  mkSignature python
    ["def"; "import"; "from"; "class"; "self"; "elif"; "None"; "True";
     "False"; "__init__"; "print"]
    [mkRegExp "^def\s+\w+\s*\(" "m";
     mkRegExp "^class\s+\w+" "m";
     mkRegExp "^import\s+\w+" "m";
     mkRegExp "^from\s+\w+\s+import" "m";
     mkRegExp ":\s*$" "m";
     mkRegExp "^\s+\w+" "m";
     mkRegExp "#\s*.+$" "m";
     mkRegExp "print\s*\(" "";
     mkRegExp "self\." "";
     mkRegExp "elif\s+" ""].

Definition javascriptSignature : LanguageSignature :=
  mkSignature javascript
    ["function"; "const"; "let"; "var"; "return"; "if"; "else"; "for";
     "while"; "class"; "import"; "export"; "async"; "await"]
    [mkRegExp "function\s+\w+\s*\(" "";
     mkRegExp "const\s+\w+\s*=" "";
     mkRegExp "let\s+\w+\s*=" "";
     mkRegExp "var\s+\w+\s*=" "";
     mkRegExp "=>\s*{?" "";
     mkRegExp "\/\/\s*.+$" "m";
     mkRegExp "\/\*[\s\S]*?\*\/" "";
     mkRegExp "console\.log\(" "";
     mkRegExp "\bimport\s+.*\bfrom\b" "";
     mkRegExp "\bexport\s+(default|const|function)" "";
     mkRegExp "{\s*$" "m";
     mkRegExp ";\s*$" "m"].

(** [code.split('\n')] *)
Fixpoint splitLines (s : string) : list string :=
  match s with
  | EmptyString => [EmptyString]
  | String c s' =>
      if Ascii.eqb c "010"%char then EmptyString :: splitLines s'
      else match splitLines s' with
           | l :: ls => String c l :: ls
           | [] => [String c EmptyString]
           end
  end.

Section WithRegExp.

(** The regular expressions of the JavaScript runtime: [test re text] is
    [re.test(text)] and [matchCount re text] the number of matches
    [text.match(re)] finds for a global [re] (0 when it returns [null]). *)
Variable test : RegExp -> string -> bool.
Variable matchCount : RegExp -> string -> nat.

Definition keywordWeight (code : string) (keyword : string) : nat :=
  matchCount (mkRegExp ("\b" ++ keyword ++ "\b") "gi") code * 2.

Definition patternWeight (code : string) (pattern : RegExp) : nat :=
  if test pattern code then 3 else 0.

(** The weight a signature has after the loop over keywords and patterns. *)
Definition signatureWeight (sig : LanguageSignature) (code : string) : nat :=
  list_sum (map (keywordWeight code) (keywords sig))
  + list_sum (map (patternWeight code) (patterns sig)).

Definition bonus (b : bool) (w : nat) : nat := if b then w else 0.

Definition pythonWeight (code : string) : nat :=
  let lines := splitLines code in
  let indentedLines :=
    List.length
      (filter (fun line => test (mkRegExp "^\s{4,}" "") line
                           && (0 <? String.length (JsString.trim line))%nat)
              lines) in
  let colonLines :=
    filter (fun line => test (mkRegExp ":\s*$" "") (JsString.trim line)) lines in
  signatureWeight pythonSignature code
  + bonus (2 <? indentedLines)%nat indentedLines
  + List.length colonLines * 2
  + bonus (test (mkRegExp "\bdef\s+\w+\s*\(.*\)\s*:" "") code) 5
  + bonus (test (mkRegExp "\bif\s+.*:\s*$" "") code) 3
  + bonus (test (mkRegExp "\bfor\s+\w+\s+in\s+" "") code) 4.

Definition javascriptWeight (code : string) : nat :=
  let semicolons := matchCount (mkRegExp ";" "g") code in
  let braces := matchCount (mkRegExp "[{}]" "g") code in
  signatureWeight javascriptSignature code
  + semicolons
  + braces
  + bonus (test (mkRegExp "\bfunction\s+\w+\s*\(" "") code) 5
  + bonus (test (mkRegExp "\bconst\s+\w+\s*=" "") code) 4
  + bonus (test (mkRegExp "=>" "") code) 4
  + bonus (test (mkRegExp "console\." "") code) 5.

(** [languageSignatures.reduce((prev, current) =>
      current.weight > prev.weight ? current : prev)], the array being
    python, javascript. *)
Definition heaviest (weighted : list (LanguageType * nat))
  : option (LanguageType * nat) :=
  match weighted with
  | [] => None
  | first :: rest =>
      Some (fold_left (fun prev current =>
                         if (snd prev <? snd current)%nat then current else prev)
                      rest first)
  end.

Definition detectLanguage (code : string) : LanguageType :=
  if JsString.isBlank code then javascript
  else
    match heaviest [(python, pythonWeight code);
                    (javascript, javascriptWeight code)] with
    | Some (detected, weight) =>
        if (weight =? 0)%nat then javascript else detected
    | None => javascript
    end.

Definition signatureOf (l : LanguageType) : LanguageSignature :=
  match l with
  | python => pythonSignature
  | javascript => javascriptSignature
  end.

(** [Math.min(100, Math.round((score / maxScore) * 100))] *)
Definition getLanguageConfidence (code : string) (l : LanguageType) : Z :=
  let signature := signatureOf l in
  let maxScore := (List.length (keywords signature) * 2
                   + List.length (patterns signature) * 3)%nat in
  let score := signatureWeight signature code in
  Z.min 100
    (JsString.mathRound
       (inject_Z (Z.of_nat score) / inject_Z (Z.of_nat maxScore) * 100)).

End WithRegExp.

End LanguageDetector.

(* ================================================================= *)
(** ** Further notions, for the properties of the remaining code *)

(** The event lies between the two times. *)
Definition inWindow (lo hi : Q) (e : ScheduledEvent) : Prop :=
  lo <= ev_time e /\ ev_time e <= hi.

(** Sum of the durations, in the order [currentTime += duration]. *)
Definition totalOf (sections : list CompositionSection) : Q :=
  fold_left Qplus (map duration sections) 0.

Definition isBeat (e : ScheduledEvent) : bool :=
  match target (ev_callback e) with rhythm => true | _ => false end.

(** The steady beat of an import section. *)
Definition importBeat (startTime : Q) (k : nat) : ScheduledEvent :=
  mkEvent (startTime + InstrumentManager.num k * (1 # 2))
          (mkTrigger rhythm (Note "C2") (Notation_ "8n")).

Definition withInstrument (i : InstrumentType) (s : CompositionSection)
  : CompositionSection :=
  mkSection (sec_type s) (startLine s) (endLine s) (duration s) (notes s)
            (sec_tempo s) i.

(** The section types [playCommitComposition] has a case for. *)
Definition isNamedType (t : SectionType) : bool :=
  match t with
  | T_import | T_function | T_return => true
  | _ => false
  end.

(** The notes of a pitch. *)
Definition pitchNotes (p : ToneNotes) : list string :=
  match p with
  | Note n => [n]
  | Chord ns => ns
  end.

(** The semitone steps of the scale [playMood] takes for a mood. *)
Definition scaleOf (m : MoodState) : list Z :=
  match m with
  | HARMONIOUS => LivePlayback.majorIntervals
  | _ => LivePlayback.minorIntervals
  end.

(** The time after [now] of the last sound of a mood. *)
Definition moodSpan (m : MoodState) : Q :=
  match m with
  | HARMONIOUS => 0.6
  | _ => 0.3
  end.

Definition moodSounds (m : MoodState) : nat :=
  match m with
  | INTENSE => 7
  | _ => 5
  end.

Fixpoint allChars (p : ascii -> bool) (s : string) : bool :=
  match s with
  | EmptyString => true
  | String c s' => p c && allChars p s'
  end.

Definition notM (c : ascii) : bool := negb (Ascii.eqb c "m"%char).

(** *** The score of a section

    What a section sounds like wherever it is placed: each trigger with its
    offset from the start of the section.  [AtStart] is the start time
    itself, [After q] the start time plus [q]. *)

Inductive Offset : Type :=
  | AtStart
  | After (q : Q).

(** A score entry placed in a section that starts at [startTime]. *)
Definition place (startTime : Q) (entry : Offset * Trigger) : ScheduledEvent :=
  mkEvent match fst entry with
          | AtStart => startTime
          | After q => startTime + q
          end
          (snd entry).

(** An import: a beat every half second while whole half seconds fit, then
    the held chord of the first three notes. *)
Definition importScore (d : Q) (ns : list string) : list (Offset * Trigger) :=
  map (fun k => (After (InstrumentManager.num k * (1 # 2)),
                 mkTrigger rhythm (Note "C2") (Notation_ "8n")))
      (seq 0 (InstrumentManager.floor_count (d / (1 # 2))))
  ++ (if (0 <? List.length ns)%nat
      then [(AtStart, mkTrigger harmony
                        (Chord (InstrumentManager.slice_0_3 ns)) (Seconds d))]
      else []).

(** A function: note [k] of [n] after [k] intervals of [d / n], with a beat
    under every other note, then the chord of the first, middle and last
    note when there are three notes or more. *)
Definition functionScore (d : Q) (ns : list string) : list (Offset * Trigger) :=
  match ns with
  | [] => []
  | _ :: _ =>
      flat_map
        (fun p : nat * string =>
           let offset :=
             After (InstrumentManager.num (fst p)
                    * (d / InstrumentManager.num (List.length ns))) in
           (offset, mkTrigger melody (Note (snd p)) (Notation_ "8n"))
           :: (if (fst p mod 2 =? 0)%nat
               then [(offset, mkTrigger rhythm (Note "C1") (Notation_ "16n"))]
               else []))
        (indexed ns)
      ++ (if (3 <=? List.length ns)%nat
          then [(AtStart,
                 mkTrigger harmony
                   (Chord [InstrumentManager.at_index ns 0;
                           InstrumentManager.at_index ns (List.length ns / 2);
                           InstrumentManager.at_index ns (List.length ns - 1)])
                   (Seconds (d * (8 # 10))))]
          else [])
  end.

(** A return: with three notes or more the resolving chord, the first note
    after three tenths of the duration, and one beat. *)
Definition returnScore (d : Q) (ns : list string) : list (Offset * Trigger) :=
  if (3 <=? List.length ns)%nat
  then [(AtStart, mkTrigger harmony
                    (Chord (InstrumentManager.slice_0_3 ns)) (Seconds d));
        (After (d * (3 # 10)),
         mkTrigger melody (Note (InstrumentManager.at_index ns 0))
                   (Seconds (d * (1 # 2))));
        (AtStart, mkTrigger rhythm (Note "C2") (Notation_ "4n"))]
  else [].

(** Any other section: by its instrument. *)
Definition genericScore (d : Q) (ns : list string) (instr : InstrumentType)
  : list (Offset * Trigger) :=
  match ns with
  | [] => []
  | _ :: _ =>
      match instr with
      | rhythm => [(AtStart, mkTrigger rhythm (Note "C1") (Notation_ "8n"))]
      | harmony => [(AtStart, mkTrigger harmony
                                (Chord (InstrumentManager.slice_0_3 ns))
                                (Seconds d))]
      | melody =>
          map (fun p : nat * string =>
                 (After (InstrumentManager.num (fst p)
                         * (d / InstrumentManager.num (List.length ns))),
                  mkTrigger melody (Note (snd p)) (Notation_ "16n")))
              (indexed ns)
      end
  end.

Definition sectionScore (section : CompositionSection)
  : list (Offset * Trigger) :=
  match sec_type section with
  | T_import => importScore (duration section) (notes section)
  | T_function => functionScore (duration section) (notes section)
  | T_return => returnScore (duration section) (notes section)
  | _ => genericScore (duration section) (notes section) (instrument section)
  end.

(** The composition the samples make: a calm import, a function with a
    melody of four notes, a tense return. *)
Definition sampleComposition : list CompositionSection :=
  [Samples.calmSection; Samples.melodySection; Samples.tenseSection].

(** The two events a note of a function section gives rise to. *)
Definition noteEvents (s d : Q) (count : nat) (p : nat * string)
  : list ScheduledEvent :=
  leadNote s d count (fst p) (snd p)
  :: (if (fst p mod 2 =? 0)%nat
      then [mkEvent (ev_time (leadNote s d count (fst p) (snd p)))
                    (mkTrigger rhythm (Note "C1") (Notation_ "16n"))]
      else []).

(** Splits a [Forall] over an explicit list into its elements. *)
Ltac each_event := repeat first [apply Forall_nil | apply Forall_cons].

(** The events of a run of sections whose first starts at [t0]. *)
Fixpoint sectionEvents (sections : list CompositionSection) (t0 : Q)
  : list ScheduledEvent :=
  match sections with
  | [] => []
  | s :: rest =>
      emitted (InstrumentManager.scheduleSection t0 s)
      ++ sectionEvents rest (t0 + duration s)
  end.

(** The note is a step of the scale of the mood above the root, or one
    octave above such a step. *)
Definition inScale (toneTranspose : string -> Z -> string) (root : string)
  (m : MoodState) (note : string) : Prop :=
  exists interval : Z,
    In interval (scaleOf m)
    /\ (note = toneTranspose root interval
        \/ note = toneTranspose (toneTranspose root interval) 12%Z).

Definition isPitched (s : LivePlayback.Sound) : Prop :=
  LivePlayback.voice s = LivePlayback.harmonyInstrument
  \/ LivePlayback.voice s = LivePlayback.melodyInstrument.

Ltac in_list := simpl; repeat first [left; reflexivity | right].

Ltac in_scale :=
  eexists; split; cycle 1;
  [first [left; reflexivity | right; reflexivity] | in_list].

(** The instrument manager exists and the audio context runs or can be
    started. *)
Definition audioReady (startFailure : option string)
  (st : AudioEngineContext.State) : Prop :=
  AudioEngineContext.initialized st = true
  /\ (AudioEngineContext.contextRunning st = true \/ startFailure = None).

(** The audio context does not run and [Tone.start()] rejects with [msg]. *)
Definition audioBlocked (startFailure : option string) (msg : string)
  (st : AudioEngineContext.State) : Prop :=
  AudioEngineContext.initialized st = true
  /\ AudioEngineContext.contextRunning st = false
  /\ startFailure = Some msg.

(** The transposition of the mocked audio library of the tests:
    [toNote: () => note]. *)
Definition mockTranspose (note : string) (semitones : Z) : string := note.


(** [maxScore] of [getLanguageConfidence]. *)
Definition maxScoreOf (l : LanguageType) : nat :=
  List.length (LanguageDetector.keywords (LanguageDetector.signatureOf l)) * 2
  + List.length (LanguageDetector.patterns (LanguageDetector.signatureOf l)) * 3.

(** A runtime in which every regular expression matches, once. *)
Definition alwaysMatches (re : LanguageDetector.RegExp) (text : string) : bool :=
  true.

Definition oneMatch (re : LanguageDetector.RegExp) (text : string) : nat := 1.

(* ================================================================= *)
(** ** The scheduler: facts about the state monad *)

Section TransportFacts.

Lemma withEvents_nil tr : withEvents tr [] = tr.
Proof. destruct tr; unfold withEvents; simpl. now rewrite app_nil_r. Qed.

Lemma withEvents_app tr e1 e2 :
  withEvents (withEvents tr e1) e2 = withEvents tr (e1 ++ e2).
Proof. unfold withEvents; simpl. now rewrite app_assoc. Qed.

Lemma timeline_withEvents_idle b evs : timeline (withEvents (idle b) evs) = evs.
Proof. reflexivity. Qed.

Lemma last_cons_default {A} (l : list A) (x d : A) :
  last (x :: l) d = last l x.
Proof.
  revert x d. induction l as [|y l IH]; intros x d; [reflexivity|].
  change (last (x :: y :: l) d) with (last (y :: l) d).
  now rewrite !IH.
Qed.

Lemma flat_map_combine_shift {A B} (f : nat * A -> list B) (xs : list A) :
  forall i,
    flat_map f (combine (seq (S i) (List.length xs)) xs)
    = flat_map (fun p => f (S (fst p), snd p))
               (combine (seq i (List.length xs)) xs).
Proof.
  induction xs as [|x xs IH]; intro i; simpl; [reflexivity|].
  now rewrite IH.
Qed.

Lemma appends_ret : appends (ret tt).
Proof. intro tr. unfold ret, emitted, exec. simpl. now rewrite withEvents_nil. Qed.

Lemma emitted_ret : emitted (ret tt) = [].
Proof. reflexivity. Qed.

Lemma appends_schedule cb time : appends (schedule cb time).
Proof. intro tr. reflexivity. Qed.

Lemma emitted_schedule cb time : emitted (schedule cb time) = [mkEvent time cb].
Proof. reflexivity. Qed.

Lemma emitted_bind (c k : M unit) :
  appends c -> appends k -> emitted (c ;; k) = emitted c ++ emitted k.
Proof.
  intros Hc Hk. unfold emitted at 1. unfold exec, bind.
  rewrite Hc, Hk. reflexivity.
Qed.

Lemma appends_bind (c k : M unit) :
  appends c -> appends k -> appends (c ;; k).
Proof.
  intros Hc Hk tr. rewrite (emitted_bind _ _ Hc Hk).
  unfold bind. rewrite Hc, Hk. now rewrite withEvents_app.
Qed.

Lemma appends_if (b : bool) (c1 c2 : M unit) :
  appends c1 -> appends c2 -> appends (if b then c1 else c2).
Proof. now destruct b. Qed.

Lemma appends_forEach_from {A} (body : A -> nat -> M unit) :
  (forall x i, appends (body x i)) ->
  forall xs i, appends (forEach_from i xs body).
Proof.
  intros Hb xs. induction xs as [|x xs IH]; intro i; simpl.
  - apply appends_ret.
  - apply appends_bind; [apply Hb | apply IH].
Qed.

Lemma emitted_forEach_from {A} (body : A -> nat -> M unit) :
  (forall x i, appends (body x i)) ->
  forall xs i,
    emitted (forEach_from i xs body)
    = flat_map (fun p => emitted (body (snd p) (fst p)))
               (combine (seq i (List.length xs)) xs).
Proof.
  intros Hb xs. induction xs as [|x xs IH]; intro i; simpl.
  - reflexivity.
  - rewrite emitted_bind by (auto using appends_forEach_from).
    now rewrite IH.
Qed.

Lemma appends_for_loop (body : nat -> M unit) :
  (forall i, appends (body i)) -> forall n i, appends (for_loop n i body).
Proof.
  intros Hb n. induction n as [|n IH]; intro i; simpl.
  - apply appends_ret.
  - apply appends_bind; [apply Hb | apply IH].
Qed.

End TransportFacts.

Create HintDb tone.
#[local] Hint Resolve appends_ret appends_schedule appends_bind appends_if
  appends_forEach_from appends_for_loop : tone.

Section SchedulingFacts.

Import InstrumentManager.

Lemma appends_scheduleImportSection s d ns : appends (scheduleImportSection s d ns).
Proof. unfold scheduleImportSection. auto 6 with tone. Qed.

Lemma appends_scheduleFunctionSection s d ns :
  appends (scheduleFunctionSection s d ns).
Proof.
  unfold scheduleFunctionSection, forEach.
  apply appends_if; auto 8 with tone.
Qed.

Lemma appends_scheduleReturnSection s d ns : appends (scheduleReturnSection s d ns).
Proof. unfold scheduleReturnSection. auto 6 with tone. Qed.

Lemma appends_scheduleGenericSection s d ns i :
  appends (scheduleGenericSection s d ns i).
Proof.
  unfold scheduleGenericSection, forEach.
  apply appends_if; [auto with tone|]. destruct i; auto 6 with tone.
Qed.

Lemma appends_scheduleSection s sec : appends (scheduleSection s sec).
Proof.
  unfold scheduleSection.
  destruct (sec_type sec);
    auto using appends_scheduleImportSection, appends_scheduleFunctionSection,
               appends_scheduleReturnSection, appends_scheduleGenericSection.
Qed.

(** Events of a run of sections whose first starts at [t0]. *)
Lemma schedule_sections_run sections :
  forall t0 tr,
    schedule_sections sections t0 tr
    = (fold_left Qplus (map duration sections) t0,
       mkTransport (state tr)
         (last (map sec_tempo sections) (bpm tr))
         (timeline tr
          ++ flat_map (fun p => emitted (scheduleSection
                         (fold_left Qplus (map duration (firstn (fst p) sections)) t0)
                         (snd p)))
                      (indexed sections))
         (pendingStop tr)).
Proof.
  induction sections as [|sec rest IH]; intros t0 tr.
  - simpl. unfold ret, indexed. simpl. rewrite app_nil_r. now destruct tr.
  - cbn [schedule_sections]. unfold bind at 1. unfold set_bpm at 1.
    unfold bind at 1. rewrite appends_scheduleSection.
    rewrite IH. cbn [map fold_left]. f_equal.
    unfold withEvents. cbn [state bpm timeline pendingStop]. f_equal.
    + now rewrite last_cons_default.
    + rewrite <- app_assoc. f_equal.
      unfold indexed. cbn [List.length seq combine flat_map fst snd firstn map fold_left].
      f_equal. now rewrite flat_map_combine_shift.
Qed.

End SchedulingFacts.

(* ================================================================= *)
(** ** Commit playback: start times, cancellation, tempo *)

Module Playback.

Import InstrumentManager.

Lemma playCommitComposition_run sections tr :
  exec (playCommitComposition sections) tr
  = mkTransport started
      (last (map sec_tempo sections) (bpm tr))
      (flat_map (fun p => emitted (scheduleSection
                                     (startTimeOf sections (fst p)) (snd p)))
                (indexed sections))
      (Some (fold_left Qplus (map duration sections) 0)).
Proof.
  unfold playCommitComposition, exec, bind.
  unfold transport_stop at 1, transport_cancel at 1.
  rewrite schedule_sections_run. reflexivity.
Qed.

Lemma lead_notes_from startTime duration count (notes : list string) :
  forall i,
    filter isMelody
      (flat_map
         (fun p : nat * string =>
            emitted
              (let time := startTime + (num (fst p) * (duration / num count)) in
               schedule (mkTrigger melody (Note (snd p)) (Notation_ "8n")) time ;;
               if (fst p mod 2 =? 0)%nat
               then schedule (mkTrigger rhythm (Note "C1") (Notation_ "16n")) time
               else ret tt))
         (combine (seq i (List.length notes)) notes))
    = map (fun p => leadNote startTime duration count (fst p) (snd p))
          (combine (seq i (List.length notes)) notes).
Proof.
  induction notes as [|note notes IH]; intro i; [reflexivity|].
  cbn [List.length seq combine flat_map map fst snd].
  rewrite filter_app, IH. f_equal.
  destruct (i mod 2 =? 0)%nat; reflexivity.
Qed.

Lemma lead_notes startTime duration (notes : list string) :
  filter isMelody (emitted (scheduleFunctionSection startTime duration notes))
  = map (fun p => leadNote startTime duration (List.length notes) (fst p) (snd p))
        (indexed notes).
Proof.
  unfold scheduleFunctionSection.
  destruct notes as [|n0 notes']; [reflexivity|].
  set (notes := n0 :: notes').
  change (List.length notes =? 0)%nat with false. cbv iota.
  rewrite emitted_bind.
  - rewrite filter_app. unfold forEach.
    rewrite emitted_forEach_from by auto 6 with tone.
    rewrite <- (app_nil_r (map _ (indexed notes))). f_equal.
    + exact (lead_notes_from startTime duration (List.length notes) notes 0).
    + destruct (3 <=? List.length notes)%nat; reflexivity.
  - unfold forEach. auto 8 with tone.
  - auto with tone.
Qed.

Lemma num_pos n : (0 < n)%nat -> 0 < num n.
Proof.
  intro H. unfold num. change 0 with (inject_Z 0). rewrite <- Zlt_Qlt. lia.
Qed.

Lemma num_succ k : num (S k) == num k + 1.
Proof.
  unfold num. rewrite Nat2Z.inj_succ. unfold Z.succ.
  rewrite inject_Z_plus. reflexivity.
Qed.

(** C5: every call of [playCommitComposition] begins by stopping the
    transport and cancelling all that is scheduled, so the playback it sets
    up is the one it would set up on an idle transport: nothing scheduled by
    an earlier call, whatever its sections, is left.  The cancellation is
    idempotent and leaves an idle transport as it is. *)
Theorem playCommitComposition_cancels_previous :
  forall (sections : list CompositionSection) (tr : Transport),
    exec cancelPrevious tr = idle (bpm tr)
    /\ (forall previous : list CompositionSection,
          let before := exec (playCommitComposition previous) tr in
          timeline (exec (playCommitComposition sections) before)
          = timeline (exec (playCommitComposition sections) (idle 0))
          /\ pendingStop (exec (playCommitComposition sections) before)
             = pendingStop (exec (playCommitComposition sections) (idle 0)))
    /\ playCommitComposition sections tr
       = (currentTime <- schedule_sections sections 0 ;;
          transport_start ;;
          transport_stop_in currentTime) (exec cancelPrevious tr)
    /\ exec (playCommitComposition sections) tr
       = exec (playCommitComposition sections) (idle (bpm tr))
    /\ exec cancelPrevious (exec cancelPrevious tr) = exec cancelPrevious tr
    /\ exec cancelPrevious (idle (bpm tr)) = idle (bpm tr).
Proof.
  intros sections tr.
  split; [reflexivity|].
  split.
  { intro previous. cbv zeta. rewrite !playCommitComposition_run.
    split; reflexivity. }
  split; [reflexivity|].
  split; [now rewrite !playCommitComposition_run|].
  split; reflexivity.
Qed.

(** Three sections of 3, 2 and 1 seconds start at seconds 0, 3 and 5; the
    four lead notes of the second are half a second apart. *)
Example playCommitComposition_sample :
  map (fun e => (Qred (ev_time e), target (ev_callback e)))
      (timeline (exec (playCommitComposition
                         [Samples.calmSection; Samples.melodySection;
                          Samples.tenseSection])
                      (idle 120)))
  = [(0, rhythm); (1 # 2, rhythm); (1, rhythm); (3 # 2, rhythm); (2, rhythm);
     (5 # 2, rhythm); (0, harmony);
     (3, melody); (3, rhythm); (7 # 2, melody); (4, melody); (4, rhythm);
     (9 # 2, melody); (3, harmony);
     (5, harmony); (53 # 10, melody); (5, rhythm)].
Proof. vm_compute. reflexivity. Qed.

(** C10: the scheduling pass assigns the transport tempo once per section, at
    once: after the pass over a run of sections the tempo is that of the last
    of them, so when playback starts the tempo is the tempo of the last
    section, and a section before it whose tempo is different is not played
    at its own tempo. *)
Theorem playCommitComposition_tempo_of_last :
  forall (before : list CompositionSection) (final : CompositionSection)
         (tr : Transport),
    (forall t0 tr',
        bpm (exec (schedule_sections (before ++ [final]) t0) tr')
        = sec_tempo final)
    /\ bpm (exec (playCommitComposition (before ++ [final])) tr)
       = sec_tempo final
    /\ state (exec (playCommitComposition (before ++ [final])) tr) = started
    /\ (forall section,
          In section before ->
          ~ sec_tempo section == sec_tempo final ->
          ~ bpm (exec (playCommitComposition (before ++ [final])) tr)
            == sec_tempo section).
Proof.
  intros before final tr.
  assert (Hlast : forall d, last (map sec_tempo (before ++ [final])) d
                            = sec_tempo final).
  { intro d. rewrite map_app. simpl. apply last_last. }
  assert (Hbpm : bpm (exec (playCommitComposition (before ++ [final])) tr)
                 = sec_tempo final).
  { rewrite playCommitComposition_run. cbn [bpm]. apply Hlast. }
  split; [|split; [|split]].
  - intros t0 tr'. unfold exec. rewrite schedule_sections_run. cbn [snd bpm].
    apply Hlast.
  - exact Hbpm.
  - now rewrite playCommitComposition_run.
  - intros section _ Hne. rewrite Hbpm. intro H. apply Hne. now symmetry.
Qed.

(** A calm section followed by a tense one: playback runs at the tempo of
    the tense one. *)
Lemma playCommitComposition_tempo_of_last_witness :
  ~ bpm (exec (playCommitComposition
                 ([Samples.calmSection] ++ [Samples.tenseSection])) (idle 120))
    == sec_tempo Samples.calmSection.
Proof.
  apply (proj2 (proj2 (proj2 (playCommitComposition_tempo_of_last
                                [Samples.calmSection] Samples.tenseSection
                                (idle 120))))).
  - left. reflexivity.
  - vm_compute. discriminate.
Defined.

End Playback.

(* ================================================================= *)
(** ** The mood classifier *)

Module Mood.

Import CodeAnalyzer.

(** The four results [analyze] can give. *)
Lemma analyze_cases code language :
  let m := analyze code language in
  (detectSyntaxErrors code language <> []
   /\ m = mkMoodData (60 + 0.8 * 120) "Dm" 0.8 DISCORDANT)
  \/ (detectSyntaxErrors code language = []
      /\ detectComments code = true /\ (calculateNestingDepth code <= 2)%Z
      /\ m = mkMoodData (60 + 0.3 * 120) "C" 0.3 HARMONIOUS)
  \/ (detectSyntaxErrors code language = []
      /\ ~ (detectComments code = true /\ (calculateNestingDepth code <= 2)%Z)
      /\ (detectRecursion code = true \/ (calculateNestingDepth code > 4)%Z)
      /\ m = mkMoodData (60 + 0.9 * 120) "Am" 0.9 INTENSE)
  \/ (detectSyntaxErrors code language = []
      /\ ~ (detectComments code = true /\ (calculateNestingDepth code <= 2)%Z)
      /\ ~ (detectRecursion code = true \/ (calculateNestingDepth code > 4)%Z)
      /\ m = mkMoodData (60 + 0.5 * 120) "G" 0.5 HARMONIOUS).
Proof.
  unfold analyze.
  destruct (detectSyntaxErrors code language) as [|e errors];
    [|left; split; [discriminate | reflexivity]].
  cbn [List.length Nat.ltb Nat.leb].
  destruct (detectComments code);
    destruct (Z.leb_spec (calculateNestingDepth code) 2);
    destruct (detectRecursion code);
    destruct (Z.ltb_spec 4 (calculateNestingDepth code));
    cbn [andb orb];
    first [ right; left; solve [decide_case]
          | right; right; left; solve [decide_case]
          | right; right; right; solve [decide_case] ].
Qed.

(** C1: [analyze] picks the mood by priority, the first rule that applies
    winning: errors give DISCORDANT; else comments with nesting depth at most
    2 give HARMONIOUS; else recursion or nesting depth above 4 gives INTENSE;
    else HARMONIOUS.  Error-free code with comments and depth at most 2 is
    HARMONIOUS whether or not it is recursive. *)
Theorem analyze_mood_priority :
  forall (code : string) (language : LanguageType),
    let errors := detectSyntaxErrors code language in
    let commented := detectComments code = true in
    let depth := calculateNestingDepth code in
    let recursive := detectRecursion code = true in
    let result := mood (analyze code language) in
    (errors <> [] -> result = DISCORDANT)
    /\ (errors = [] -> commented -> (depth <= 2)%Z -> result = HARMONIOUS)
    /\ (errors = [] -> ~ (commented /\ (depth <= 2)%Z) ->
        recursive \/ (depth > 4)%Z -> result = INTENSE)
    /\ (errors = [] -> ~ (commented /\ (depth <= 2)%Z) ->
        ~ (recursive \/ (depth > 4)%Z) -> result = HARMONIOUS)
    /\ (errors = [] -> commented -> (depth <= 2)%Z -> recursive ->
        result = HARMONIOUS).
Proof.
  intros code language. cbv zeta.
  destruct (analyze_cases code language)
    as [[He Hm] | [[He [Hc [Hd Hm]]] | [[He [Hn [Hr Hm]]] | [He [Hn [Hr Hm]]]]]];
    cbv zeta in Hm; rewrite Hm; cbn [mood];
    repeat split; intros; first [reflexivity | congruence | tauto].
Qed.

(** C2: the tempo [analyze] returns is [60 + intensity * 120], which is its
    own rounding, it lies in [60, 180], and the intensity lies in [0, 1]. *)
Theorem analyze_tempo_and_intensity_range :
  forall (code : string) (language : LanguageType),
    let m := analyze code language in
    tempo m = 60 + intensity m * 120
    /\ tempo m == inject_Z (round (60 + intensity m * 120))
    /\ 60 <= tempo m /\ tempo m <= 180
    /\ 0 <= intensity m /\ intensity m <= 1.
Proof.
  intros code language. cbv zeta.
  destruct (analyze_cases code language)
    as [[He Hm] | [[He [Hc [Hd Hm]]] | [[He [Hn [Hr Hm]]] | [He [Hn [Hr Hm]]]]]];
    cbv zeta in Hm; rewrite Hm; cbn [tempo intensity];
    (split; [reflexivity|]); repeat split; closed_Q.
Qed.

(** C6: a DISCORDANT result has a root key that ends in "m", a HARMONIOUS
    result has a root key that does not. *)
Theorem analyze_rootKey_family :
  forall (code : string) (language : LanguageType),
    (mood (analyze code language) = DISCORDANT ->
     endsWith (rootKey (analyze code language)) "m" = true)
    /\ (mood (analyze code language) = HARMONIOUS ->
        endsWith (rootKey (analyze code language)) "m" = false).
Proof.
  intros code language.
  destruct (analyze_cases code language)
    as [[He Hm] | [[He [Hc [Hd Hm]]] | [[He [Hn [Hr Hm]]] | [He [Hn [Hr Hm]]]]]];
    cbv zeta in Hm; rewrite Hm; cbn [mood rootKey];
    split; intro H; first [discriminate H | reflexivity].
Qed.

(** C7, amended to what the code does: whenever [detectSyntaxErrors] reports something
    the intensity is 0.8, a value above 0.7 and at most 1.0, whatever the
    number of distinct error categories. *)
Theorem analyze_error_intensity :
  forall (code : string) (language : LanguageType),
    detectSyntaxErrors code language <> [] ->
    intensity (analyze code language) = 0.8
    /\ 0.7 < intensity (analyze code language)
    /\ intensity (analyze code language) <= 1
    /\ (forall code' language',
          detectSyntaxErrors code' language' <> [] ->
          intensity (analyze code' language')
          = intensity (analyze code language)).
Proof.
  assert (H08 : forall code language,
             detectSyntaxErrors code language <> [] ->
             intensity (analyze code language) = 0.8).
  { intros code language Herr.
    destruct (analyze_cases code language)
      as [[He Hm] | [[He Hm] | [[He Hm] | [He Hm]]]]; [|congruence ..].
    cbv zeta in Hm. now rewrite Hm. }
  intros code language Herr.
  rewrite (H08 _ _ Herr). repeat split; try closed_Q.
  intros code' language' Herr'. now apply H08.
Qed.

Lemma analyze_mood_priority_witness :
  mood (analyze Samples.errorCode javascript) = DISCORDANT
  /\ mood (analyze Samples.commentedRecursion javascript) = HARMONIOUS
  /\ mood (analyze Samples.factorialCode javascript) = INTENSE
  /\ mood (analyze Samples.cleanCode javascript) = HARMONIOUS
  /\ detectRecursion Samples.commentedRecursion = true.
Proof.
  split; [|split; [|split; [|split]]].
  - destruct (analyze_mood_priority Samples.errorCode javascript) as [P _].
    apply P. vm_compute. discriminate.
  - destruct (analyze_mood_priority Samples.commentedRecursion javascript)
      as [_ [_ [_ [_ P]]]].
    apply P; vm_compute; first [reflexivity | discriminate].
  - destruct (analyze_mood_priority Samples.factorialCode javascript)
      as [_ [_ [P _]]].
    apply P.
    + vm_compute. reflexivity.
    + vm_compute. intros [H _]. discriminate H.
    + left. vm_compute. reflexivity.
  - destruct (analyze_mood_priority Samples.cleanCode javascript)
      as [_ [_ [_ [P _]]]].
    apply P.
    + vm_compute. reflexivity.
    + vm_compute. intros [H _]. discriminate H.
    + vm_compute. intros [H | H]; [discriminate H | discriminate H].
  - vm_compute. reflexivity.
Defined.

Lemma analyze_rootKey_family_witness :
  endsWith (rootKey (analyze Samples.errorCode javascript)) "m" = true
  /\ endsWith (rootKey (analyze Samples.cleanCode javascript)) "m" = false.
Proof.
  split.
  - apply (proj1 (analyze_rootKey_family Samples.errorCode javascript)).
    vm_compute. reflexivity.
  - apply (proj2 (analyze_rootKey_family Samples.cleanCode javascript)).
    vm_compute. reflexivity.
Defined.

(** The text with two misspelt keywords and an open parenthesis. *)
Lemma analyze_error_intensity_witness :
  intensity (analyze Samples.errorCode javascript) = 0.8
  /\ 0.7 < intensity (analyze Samples.errorCode javascript).
Proof.
  assert (Herr : detectSyntaxErrors Samples.errorCode javascript <> [])
    by (vm_compute; discriminate).
  destruct (analyze_error_intensity Samples.errorCode javascript Herr)
    as [H1 [H2 _]].
  split; [exact H1 | exact H2].
Defined.

(** C7 as stated fails: one category of error (an open parenthesis) and two
    (misspelt keywords as well) give the same intensity, 0.8, below the
    cap. *)
Lemma intensity_is_not_scaled : ~ IntensityGrowsWithCategories.
Proof.
  intro H.
  destruct (H Samples.unmatchedCode Samples.errorCode javascript)
    as [Hlt | Hcap].
  - vm_compute. discriminate.
  - vm_compute. discriminate.
  - vm_compute. lia.
  - vm_compute in Hlt. discriminate Hlt.
  - vm_compute in Hcap. discriminate Hcap.
Qed.

End Mood.

(* ================================================================= *)
(** ** The nesting depth is never negative *)

Module Heuristics.

Import CodeAnalyzer.

Lemma braceDepth_lower_bound s :
  forall balance deepest, (deepest <= braceDepth s balance deepest)%Z.
Proof.
  induction s as [|c s IH]; intros balance deepest; simpl; [lia|].
  etransitivity; [|apply IH]. lia.
Qed.

Lemma indentDepth_lower_bound ls :
  forall afterColon deepest, (deepest <= indentDepth ls afterColon deepest)%Z.
Proof.
  induction ls as [|l ls IH]; intros afterColon deepest; simpl; [lia|].
  etransitivity; [|apply IH].
  destruct (afterColon && negb (is_blank l)); lia.
Qed.

Lemma calculateNestingDepth_nonneg code : (0 <= calculateNestingDepth code)%Z.
Proof.
  unfold calculateNestingDepth.
  destruct (contains "{" code || contains "}" code).
  - apply braceDepth_lower_bound.
  - apply indentDepth_lower_bound.
Qed.

End Heuristics.

(* ================================================================= *)
(** ** The composition planner *)

Module Planner.

Import CodeAnalyzer.

(* ----------------------------------------------------------------- *)
(** *** The scan keeps the sections in line order *)

Lemma chain_mono l : forall n m, (n <= m)%nat -> chain n l -> chain m l.
Proof.
  destruct l as [|s l]; intros n m Hnm H; [exact I|].
  simpl in *. destruct H as [H1 [H2 H3]]. repeat split; [lia | lia | exact H3].
Qed.

Lemma close_settle sc : close (settle sc) = close sc.
Proof.
  unfold settle. destruct (enclosing sc) as [fe|]; [|reflexivity].
  now destruct (functionClosed fe).
Qed.

Lemma topStep_effect language n line sc :
  LineEffect n sc (close (topStep language n line sc)).
Proof.
  unfold topStep.
  destruct (classify line);
    try (rewrite close_settle; eapply Opened; reflexivity);
    unfold close at 1; cbn [current finished];
    destruct (current sc) as [s|] eqn:Hcur;
    try (eapply Opened; unfold close; rewrite Hcur; reflexivity);
    destruct (continues _ (span_type s)); cbn [current finished];
    solve [ eapply Prolonged; [exact Hcur | reflexivity]
          | eapply Opened; unfold close; rewrite Hcur; reflexivity ].
Qed.

Lemma innerStep_effect n line fe sc :
  LineEffect n sc (close (innerStep n line fe sc)).
Proof.
  unfold innerStep. rewrite close_settle.
  destruct (current sc) as [s|] eqn:Hcur.
  - destruct (classify line);
      try (eapply Prolonged; [exact Hcur | reflexivity]).
    destruct (span_type s);
      solve [ eapply Prolonged; [exact Hcur | reflexivity]
            | eapply Opened; unfold close; rewrite Hcur; reflexivity ].
  - destruct (classify line);
      eapply Opened; unfold close; rewrite Hcur; reflexivity.
Qed.

Lemma scanLine_effect language sc n line :
  LineEffect n sc (close (scanLine language sc n line)).
Proof.
  unfold scanLine. destruct (is_blank line); [now apply Unchanged|].
  destruct (enclosing sc) as [fe|].
  - destruct (dedented fe line); [|apply innerStep_effect].
    destruct (topStep_effect language n line (mkScan (close sc) None None))
      as [H | t H | s Hs H].
    + now apply Unchanged.
    + now apply (Opened _ _ _ t).
    + discriminate Hs.
  - apply topStep_effect.
Qed.

Lemma scanLine_chain language sc n line :
  chain n (close sc) -> chain (S n) (close (scanLine language sc n line)).
Proof.
  intro H. destruct (scanLine_effect language sc n line) as [E | t E | s Hs E];
    rewrite E.
  - apply (chain_mono _ n); [lia | exact H].
  - simpl. repeat split; [lia | lia | exact H].
  - unfold close in H. rewrite Hs in H. simpl in *.
    destruct H as [H1 [H2 H3]]. repeat split; [lia | lia | exact H3].
Qed.

Lemma scanLines_chain language ls :
  forall n sc,
    chain n (close sc) ->
    chain (n + List.length ls) (close (scanLines language ls n sc)).
Proof.
  induction ls as [|l ls IH]; intros n sc H; simpl.
  - now rewrite Nat.add_0_r.
  - rewrite <- Nat.add_succ_comm. apply IH. now apply scanLine_chain.
Qed.

Lemma chain_adjacent later a b earlier :
  forall n,
    chain n (later ++ b :: a :: earlier) ->
    (span_start a <= span_end a)%nat
    /\ (span_end a < span_start b)%nat
    /\ (span_start b <= span_end b)%nat.
Proof.
  induction later as [|x later IH]; intros n H; simpl in H.
  - destruct H as [H1 [_ [H2 [H3 _]]]]. auto.
  - destruct H as [_ [_ H]]. now apply IH in H.
Qed.

Lemma spans_adjacent code language before a b after :
  spans code language = before ++ a :: b :: after ->
  (span_start a <= span_end a)%nat
  /\ (span_end a < span_start b)%nat
  /\ (span_start b <= span_end b)%nat.
Proof.
  unfold spans. intro H.
  apply (f_equal (@rev Span)) in H. rewrite rev_involutive in H.
  rewrite rev_app_distr in H. simpl in H.
  rewrite <- !app_assoc in H. simpl in H.
  eapply (chain_adjacent (rev after) a b (rev before)).
  rewrite <- H. apply scanLines_chain. exact I.
Qed.

(* ----------------------------------------------------------------- *)
(** *** What [assemble] keeps of the spans and of the durations *)

Lemma assemble_extents m sp :
  forall index ds,
    List.length ds = List.length sp ->
    map extent (assemble m index sp ds) = map spanExtent sp.
Proof.
  induction sp as [|s sp IH]; intros index [|d ds] Hlen; try discriminate;
    [reflexivity|].
  simpl. f_equal. apply IH. now injection Hlen.
Qed.

Lemma assemble_durations m sp :
  forall index ds,
    List.length ds = List.length sp ->
    map duration (assemble m index sp ds) = ds.
Proof.
  induction sp as [|s sp IH]; intros index [|d ds] Hlen; try discriminate;
    [reflexivity|].
  simpl. f_equal. apply IH. now injection Hlen.
Qed.

Lemma allocateDurations_length floors sp :
  List.length (allocateDurations floors sp) = List.length sp.
Proof.
  unfold allocateDurations, naiveAllocation.
  destruct (Qle_bool _ _); now rewrite ?length_map.
Qed.

(** C9: the sections [analyzeForComposition] returns follow the line order of
    the text without overlap: of two adjacent sections the first ends no
    later than the second starts (indeed on an earlier line), and the start
    lines ascend. *)
Theorem sections_in_line_order :
  forall (floors : SectionType -> Q) (code : string) (language : LanguageType)
         (before : list CompositionSection) (a b : CompositionSection)
         (after : list CompositionSection),
    analyzeForComposition floors code language = before ++ a :: b :: after ->
    (endLine a <= startLine b)%nat
    /\ (startLine a < startLine b)%nat
    /\ (endLine a < startLine b)%nat.
Proof.
  intros floors code language before a b after H.
  apply (f_equal (map extent)) in H.
  unfold analyzeForComposition in H.
  rewrite assemble_extents in H by apply allocateDurations_length.
  rewrite map_app in H. cbn [map] in H.
  apply map_eq_app in H. destruct H as [sp1 [sp2 [Hsp [_ H]]]].
  apply map_eq_cons in H. destruct H as [a' [sp3 [Hsp2 [Ha H]]]].
  apply map_eq_cons in H. destruct H as [b' [sp4 [Hsp3 [Hb _]]]].
  subst sp2 sp3.
  destruct (spans_adjacent _ _ _ _ _ _ Hsp) as [H1 [H2 H3]].
  unfold extent, spanExtent in Ha, Hb.
  injection Ha as Ha1 Ha2. injection Hb as Hb1 Hb2.
  lia.
Qed.

(* ----------------------------------------------------------------- *)
(** *** Durations *)

Lemma Qsum_scale l f : Qsum (map (fun d => d * f) l) == Qsum l * f.
Proof.
  induction l as [|d l IH]; simpl; [ring|]. rewrite IH. ring.
Qed.

Lemma Qsum_nonneg l : Forall (fun d => 0 < d) l -> 0 <= Qsum l.
Proof.
  induction 1 as [|d l Hd _ IH]; simpl; [apply Qle_refl|].
  apply Qlt_le_weak in Hd.
  change 0 with (0 + 0). now apply Qplus_le_compat.
Qed.

Lemma totalDuration_from sections :
  forall acc,
    fold_left (fun sum s => sum + duration s) sections acc
    == acc + Qsum (map duration sections).
Proof.
  induction sections as [|s sections IH]; intro acc; simpl; [ring|].
  rewrite IH. ring.
Qed.

Lemma totalDuration_Qsum sections :
  totalDuration sections == Qsum (map duration sections).
Proof. unfold totalDuration. rewrite totalDuration_from. ring. Qed.

Lemma ofNat_pos n : (0 < n)%nat -> 0 < ofNat n.
Proof.
  intro H. unfold ofNat. change 0 with (inject_Z 0). rewrite <- Zlt_Qlt. lia.
Qed.

Lemma Qmaximum_lower a b : b <= Qmaximum a b.
Proof.
  unfold Qmaximum. destruct (Qle_bool a b) eqn:E; [apply Qle_refl|].
  apply Qlt_le_weak, Qnot_le_lt. intro H.
  apply Qle_bool_iff in H. congruence.
Qed.

Lemma lineCount_pos s : (0 < lineCount s)%nat.
Proof. unfold lineCount. lia. Qed.

Lemma naiveShare_pos floors total s :
  (0 < total)%nat -> 0 < naiveShare floors total s.
Proof.
  intro Ht. unfold naiveShare.
  eapply Qlt_le_trans; [|apply Qmaximum_lower].
  apply Qlt_shift_div_l; [now apply ofNat_pos|].
  rewrite Qmult_0_l. apply Qmult_lt_0_compat; [reflexivity|].
  apply ofNat_pos, lineCount_pos.
Qed.

Lemma naiveAllocation_pos floors sp :
  Forall (fun d => 0 < d) (naiveAllocation floors sp).
Proof.
  unfold naiveAllocation. apply Forall_map, Forall_forall. intros s Hs.
  apply naiveShare_pos.
  destruct sp as [|s0 sp]; [destruct Hs|].
  simpl. pose proof (lineCount_pos s0). lia.
Qed.

Lemma allocateDurations_cases floors sp :
  let naive := naiveAllocation floors sp in
  (Qsum naive <= budget /\ allocateDurations floors sp = naive)
  \/ (budget < Qsum naive
      /\ allocateDurations floors sp
         = map (fun d => d * (budget / Qsum naive)) naive).
Proof.
  cbv zeta. unfold allocateDurations.
  destruct (Qle_bool (Qsum (naiveAllocation floors sp)) budget) eqn:E.
  - left. split; [now apply Qle_bool_iff | reflexivity].
  - right. split; [|reflexivity].
    apply Qnot_le_lt. intro H. apply Qle_bool_iff in H. congruence.
Qed.

Lemma budget_pos : 0 < budget.
Proof. reflexivity. Qed.

(** C3: every section [analyzeForComposition] returns has a positive
    duration and the durations sum to at most 15 seconds; when the
    proportional shares with their floors exceed 15 seconds in sum, all of
    them are multiplied by the one factor [15 / sum] and the durations then
    sum to exactly 15; otherwise the shares are kept as they are. *)
Theorem composition_durations_within_budget :
  forall (floors : SectionType -> Q) (code : string) (language : LanguageType),
    let sections := analyzeForComposition floors code language in
    let naive := naiveAllocation floors (spans code language) in
    Forall (fun s => 0 < duration s) sections
    /\ totalDuration sections <= 15
    /\ (15 < Qsum naive ->
        map duration sections = map (fun d => d * (15 / Qsum naive)) naive
        /\ totalDuration sections == 15)
    /\ (Qsum naive <= 15 -> map duration sections = naive).
Proof.
  intros floors code language. cbv zeta.
  set (sp := spans code language).
  assert (Hd : map duration (analyzeForComposition floors code language)
               = allocateDurations floors sp).
  { unfold analyzeForComposition. fold sp.
    apply assemble_durations, allocateDurations_length. }
  pose proof (naiveAllocation_pos floors sp) as Hpos.
  pose (naive := naiveAllocation floors sp).
  fold naive in Hpos.
  assert (Hscaled : budget < Qsum naive ->
            Forall (fun d => 0 < d) (map (fun d => d * (budget / Qsum naive)) naive)
            /\ Qsum (map (fun d => d * (budget / Qsum naive)) naive) == budget).
  { intro Hover.
    assert (Hs : 0 < Qsum naive) by (eapply Qlt_trans; [apply budget_pos | exact Hover]).
    split.
    - apply Forall_map. revert Hpos. apply Forall_impl. intros d Hdpos.
      apply Qmult_lt_0_compat; [exact Hdpos|].
      apply Qlt_shift_div_l; [exact Hs|]. now rewrite Qmult_0_l.
    - rewrite Qsum_scale. field. intro H0. rewrite H0 in Hs.
      now apply Qlt_irrefl in Hs. }
  rewrite totalDuration_Qsum, Hd.
  pose proof (allocateDurations_cases floors sp) as Hcases.
  cbv zeta in Hcases. fold naive in Hcases.
  split; [|split; [|split]].
  - apply Forall_map. rewrite Hd.
    destruct Hcases as [[_ E] | [Hover E]]; rewrite E; [exact Hpos | now apply Hscaled].
  - destruct Hcases as [[Hle E] | [Hover E]]; rewrite E; [exact Hle|].
    destruct (Hscaled Hover) as [_ Hsum]. rewrite Hsum. apply Qle_refl.
  - intro Hover.
    destruct Hcases as [[Hle E] | [_ E]].
    + exfalso. apply (Qlt_irrefl 15).
      eapply Qlt_le_trans; [exact Hover | exact Hle].
    + rewrite E. split; [reflexivity|]. now apply Hscaled.
  - intro Hle.
    destruct Hcases as [[_ E] | [Hover E]]; [exact E|].
    exfalso. apply (Qlt_irrefl 15).
    eapply Qlt_le_trans; [exact Hover | exact Hle].
Qed.

Lemma sections_in_line_order_witness :
  let sections :=
    analyzeForComposition Samples.importFloor Samples.moduleCode javascript in
  let a := nth 0 sections Samples.noSection in
  let b := nth 1 sections Samples.noSection in
  (endLine a <= startLine b)%nat
  /\ (startLine a < startLine b)%nat
  /\ (endLine a < startLine b)%nat.
Proof.
  cbv zeta.
  apply (sections_in_line_order Samples.importFloor Samples.moduleCode javascript
           [] _ _
           (skipn 2 (analyzeForComposition Samples.importFloor
                                           Samples.moduleCode javascript))).
  vm_compute. reflexivity.
Defined.

(** With floors of 20 seconds the three shares are scaled by [15 / 60]. *)
Lemma composition_durations_within_budget_witness :
  let sections :=
    analyzeForComposition Samples.highFloors Samples.moduleCode javascript in
  map duration sections
  = map (fun d => d * (15 / Qsum (naiveAllocation Samples.highFloors
                                    (spans Samples.moduleCode javascript))))
        (naiveAllocation Samples.highFloors (spans Samples.moduleCode javascript))
  /\ totalDuration sections == 15.
Proof.
  cbv zeta.
  apply (proj1 (proj2 (proj2 (composition_durations_within_budget
                                Samples.highFloors Samples.moduleCode
                                javascript)))).
  vm_compute. reflexivity.
Defined.

End Planner.

(* ================================================================= *)
(** ** Commit playback: what each kind of section schedules *)

Module Scheduling.

Import InstrumentManager.

Lemma emitted_for_loop (body : nat -> M unit) :
  (forall i, appends (body i)) ->
  forall n i,
    emitted (for_loop n i body) = flat_map (fun k => emitted (body k)) (seq i n).
Proof.
  intros Hb n. induction n as [|n IH]; intro i; simpl; [reflexivity|].
  rewrite emitted_bind by (auto using appends_for_loop). now rewrite IH.
Qed.

Lemma num_nonneg k : 0 <= num k.
Proof.
  unfold num. change 0 with (inject_Z 0). rewrite <- Zle_Qle. lia.
Qed.

Lemma num_le k n : (k <= n)%nat -> num k <= num n.
Proof. intro H. unfold num. rewrite <- Zle_Qle. lia. Qed.

Lemma num_positive n : (0 < n)%nat -> 0 < num n.
Proof.
  intro H. unfold num. change 0 with (inject_Z 0). rewrite <- Zlt_Qlt. lia.
Qed.

(** A share [k/n] of a duration. *)
Lemma fraction_bounds k n d :
  (k <= n)%nat -> (0 < n)%nat -> 0 <= d ->
  0 <= num k * (d / num n) /\ num k * (d / num n) <= d.
Proof.
  intros Hk Hn Hd. pose proof (num_positive n Hn) as Hpos.
  assert (Hq : 0 <= d / num n).
  { apply Qle_shift_div_l; [exact Hpos|]. now rewrite Qmult_0_l. }
  split.
  - apply Qmult_le_0_compat; [apply num_nonneg | exact Hq].
  - assert (E : d == num n * (d / num n)).
    { field. intro H0. rewrite H0 in Hpos. now apply Qlt_irrefl in Hpos. }
    rewrite E at 2. apply Qmult_le_compat_r; [now apply num_le | exact Hq].
Qed.

(** The beats of an import section end before the section does. *)
Lemma beat_before_end d k :
  (k < floor_count (d / (1 # 2)))%nat -> num k * (1 # 2) < d.
Proof.
  unfold floor_count. intro Hk.
  assert (Hz : (Z.of_nat k + 1 <= Qfloor (d / (1 # 2)))%Z) by lia.
  rewrite Zle_Qle in Hz. rewrite inject_Z_plus in Hz.
  pose proof (Qfloor_le (d / (1 # 2))) as Hf.
  assert (Hx : num k + 1 <= d / (1 # 2))
    by (eapply Qle_trans; [exact Hz | exact Hf]).
  assert (E : d / (1 # 2) == d * 2) by (field; discriminate).
  rewrite E in Hx. unfold num in *. lra.
Qed.

Lemma flat_map_beats s n :
  forall i,
    flat_map (fun k =>
                emitted (schedule (mkTrigger rhythm (Note "C2") (Notation_ "8n"))
                                  (s + (num k * (1 # 2)))))
             (seq i n)
    = map (importBeat s) (seq i n).
Proof.
  induction n as [|n IH]; intro i; simpl; [reflexivity|]. now rewrite IH.
Qed.

Lemma emitted_scheduleImportSection s d ns :
  emitted (scheduleImportSection s d ns)
  = map (importBeat s) (seq 0 (floor_count (d / (1 # 2))))
    ++ (if (0 <? List.length ns)%nat
        then [mkEvent s (mkTrigger harmony (Chord (slice_0_3 ns)) (Seconds d))]
        else []).
Proof.
  unfold scheduleImportSection.
  rewrite emitted_bind by auto 6 with tone.
  rewrite emitted_for_loop by auto with tone.
  f_equal; try apply flat_map_beats.
  destruct (0 <? List.length ns)%nat; reflexivity.
Qed.

Lemma emitted_scheduleFunctionSection s d n0 ns' :
  let ns := n0 :: ns' in
  emitted (scheduleFunctionSection s d ns)
  = flat_map (noteEvents s d (List.length ns)) (indexed ns)
    ++ (if (3 <=? List.length ns)%nat
        then [mkEvent s (mkTrigger harmony
                           (Chord [at_index ns 0;
                                   at_index ns (List.length ns / 2);
                                   at_index ns (List.length ns - 1)])
                           (Seconds (d * (8 # 10))))]
        else []).
Proof.
  intro ns. unfold scheduleFunctionSection.
  change (List.length ns =? 0)%nat with false. cbv iota.
  rewrite emitted_bind; [|unfold forEach; auto 8 with tone|auto with tone].
  f_equal.
  - unfold forEach. rewrite emitted_forEach_from by auto 6 with tone.
    unfold indexed. apply flat_map_ext. intros [k note].
    unfold noteEvents. cbn [fst snd].
    destruct (k mod 2 =? 0)%nat; reflexivity.
  - destruct (3 <=? List.length ns)%nat; reflexivity.
Qed.

Lemma emitted_melody_run s d (ns : list string) count :
  forall i,
    emitted (forEach_from i ns (fun note index =>
               schedule (mkTrigger melody (Note note) (Notation_ "16n"))
                        (s + (num index * (d / num count)))))
    = map (fun p => mkEvent (s + num (fst p) * (d / num count))
                            (mkTrigger melody (Note (snd p)) (Notation_ "16n")))
          (combine (seq i (List.length ns)) ns).
Proof.
  induction ns as [|n ns IH]; intro i; [reflexivity|].
  cbn [forEach_from]. rewrite emitted_bind by auto 6 with tone.
  rewrite IH. reflexivity.
Qed.

Lemma in_indexed {A} (xs : list A) k x :
  In (k, x) (indexed xs) -> (k < List.length xs)%nat.
Proof.
  unfold indexed. intro H. apply in_combine_l in H.
  apply in_seq in H. lia.
Qed.

Lemma window_scheduleSection s sec :
  0 <= duration sec ->
  Forall (inWindow s (s + duration sec)) (emitted (scheduleSection s sec)).
Proof.
  intro Hd. unfold scheduleSection.
  assert (Hstart : forall cb, inWindow s (s + duration sec) (mkEvent s cb)).
  { intro cb. unfold inWindow. cbn [ev_time]. split; lra. }
  assert (Hfrac : forall k cb,
             (k < List.length (notes sec))%nat ->
             inWindow s (s + duration sec)
               (mkEvent (s + num k * (duration sec / num (List.length (notes sec))))
                        cb)).
  { intros k cb Hk. unfold inWindow. cbn [ev_time].
    destruct (fraction_bounds k (List.length (notes sec)) (duration sec))
      as [H1 H2]; [lia | lia | exact Hd |]. split; lra. }
  assert (Hgeneric :
            Forall (inWindow s (s + duration sec))
              (emitted (scheduleGenericSection s (duration sec) (notes sec)
                                               (instrument sec)))).
  { unfold scheduleGenericSection.
    destruct (List.length (notes sec) =? 0)%nat; [constructor|].
    destruct (instrument sec).
    - each_event; apply Hstart.
    - each_event; apply Hstart.
    - unfold forEach. rewrite emitted_melody_run.
      apply Forall_map, Forall_forall. intros [k note] Hin.
      apply Hfrac. now apply in_indexed in Hin. }
  destruct (sec_type sec); try exact Hgeneric.
  - (* import *)
    rewrite emitted_scheduleImportSection. apply Forall_app. split.
    + apply Forall_map, Forall_forall. intros k Hk. apply in_seq in Hk.
      unfold inWindow, importBeat. cbn [ev_time].
      pose proof (num_nonneg k).
      assert (num k * (1 # 2) < duration sec) by (apply beat_before_end; lia).
      split; lra.
    + destruct (0 <? List.length (notes sec))%nat; each_event.
      apply Hstart.
  - (* function *)
    destruct (notes sec) as [|n0 ns'] eqn:Hnotes; [constructor|].
    rewrite emitted_scheduleFunctionSection. apply Forall_app. split.
    + apply Forall_flat_map, Forall_forall. intros [k note] Hin.
      apply in_indexed in Hin. unfold noteEvents, leadNote. cbn [fst snd ev_time].
      destruct (k mod 2 =? 0)%nat; each_event; now apply Hfrac.
    + destruct (3 <=? _)%nat; each_event. apply Hstart.
  - (* return *)
    unfold scheduleReturnSection.
    destruct (3 <=? List.length (notes sec))%nat; [|constructor].
    each_event; try apply Hstart.
    unfold inWindow. cbn [ev_time]. split; nra.
Qed.

Lemma schedule_sections_events sections :
  forall t0 tr,
    schedule_sections sections t0 tr
    = (fold_left Qplus (map duration sections) t0,
       mkTransport (state tr) (last (map sec_tempo sections) (bpm tr))
                   (timeline tr ++ sectionEvents sections t0) (pendingStop tr)).
Proof.
  induction sections as [|sec rest IH]; intros t0 tr.
  - simpl. unfold ret. rewrite app_nil_r. now destruct tr.
  - cbn [schedule_sections]. unfold bind at 1. unfold set_bpm at 1.
    unfold bind at 1. rewrite appends_scheduleSection. rewrite IH.
    cbn [map fold_left sectionEvents]. f_equal.
    unfold withEvents. cbn [state bpm timeline pendingStop].
    rewrite last_cons_default, <- app_assoc. reflexivity.
Qed.

Lemma playCommitComposition_events sections tr :
  exec (playCommitComposition sections) tr
  = mkTransport started (last (map sec_tempo sections) (bpm tr))
                (sectionEvents sections 0) (Some (totalOf sections)).
Proof.
  unfold playCommitComposition, exec, bind.
  unfold transport_stop at 1, transport_cancel at 1.
  rewrite schedule_sections_events. reflexivity.
Qed.

Lemma sectionEvents_app a b :
  forall t0,
    sectionEvents (a ++ b) t0
    = sectionEvents a t0
      ++ sectionEvents b (fold_left Qplus (map duration a) t0).
Proof.
  induction a as [|sec a IH]; intro t0; simpl; [reflexivity|].
  now rewrite IH, app_assoc.
Qed.

Lemma inWindow_widen lo hi lo' hi' e :
  lo' <= lo -> hi <= hi' -> inWindow lo hi e -> inWindow lo' hi' e.
Proof. unfold inWindow. intros H1 H2 [H3 H4]. split; lra. Qed.

Lemma sectionEvents_window sections :
  forall t0,
    Forall (fun sec => 0 <= duration sec) sections ->
    let finish := fold_left Qplus (map duration sections) t0 in
    t0 <= finish /\ Forall (inWindow t0 finish) (sectionEvents sections t0).
Proof.
  induction sections as [|sec rest IH]; intros t0 Hnn; cbv zeta.
  - simpl. split; [lra | constructor].
  - inversion Hnn as [|? ? Hd Hrest]; subst.
    destruct (IH (t0 + duration sec) Hrest) as [Hle Hw].
    cbn [map fold_left sectionEvents]. split; [lra|].
    apply Forall_app. split.
    + eapply Forall_impl; [|apply (window_scheduleSection t0 sec Hd)].
      intro e. apply inWindow_widen; lra.
    + eapply Forall_impl; [|exact Hw].
      intro e. apply inWindow_widen; lra.
Qed.

(** X1: a section without notes schedules nothing unless it is an import
    section, and a return section with fewer than three notes schedules
    nothing either. *)
Theorem silent_sections :
  forall (startTime : Q) (section : CompositionSection),
    (notes section = [] /\ sec_type section <> T_import)
    \/ (sec_type section = T_return /\ (List.length (notes section) < 3)%nat) ->
    emitted (scheduleSection startTime section) = [].
Proof.
  intros s sec [[Hn Ht] | [Ht Hn]]; unfold scheduleSection.
  - rewrite Hn. destruct (sec_type sec); try reflexivity. now elim Ht.
  - rewrite Ht. unfold scheduleReturnSection.
    destruct (Nat.leb_spec 3 (List.length (notes sec))); [lia | reflexivity].
Qed.

Lemma silent_sections_witness :
  emitted (scheduleSection 5 (mkSection T_return 6 7 1 ["C4"; "E4"] 96 harmony))
  = [].
Proof.
  apply silent_sections. right. split; [reflexivity | vm_compute; lia].
Defined.

(** X2: an import section gets one rhythm beat every half second, the
    [k]-th at [startTime + k/2] for [k] below [floor(duration / 0.5)]; every
    beat lies at or after the start and strictly before the end of the
    section, and a section shorter than half a second gets no beat. *)
Theorem import_beats_within_section :
  forall (startTime duration : Q) (notes : list string),
    let events := emitted (scheduleImportSection startTime duration notes) in
    filter isBeat events
    = map (importBeat startTime) (seq 0 (floor_count (duration / (1 # 2))))
    /\ Forall (fun e => isBeat e = true ->
                        startTime <= ev_time e
                        /\ ev_time e < startTime + duration) events
    /\ (duration < 1 # 2 -> filter isBeat events = []).
Proof.
  intros s d ns. cbv zeta. rewrite emitted_scheduleImportSection.
  assert (Hbeats : forall l, filter isBeat (map (importBeat s) l)
                             = map (importBeat s) l).
  { induction l as [|k l IH]; simpl; [reflexivity | now rewrite IH]. }
  assert (Hfilter :
            filter isBeat
              (map (importBeat s) (seq 0 (floor_count (d / (1 # 2))))
               ++ (if (0 <? List.length ns)%nat
                   then [mkEvent s (mkTrigger harmony (Chord (slice_0_3 ns))
                                              (Seconds d))]
                   else []))
            = map (importBeat s) (seq 0 (floor_count (d / (1 # 2))))).
  { rewrite filter_app, Hbeats.
    destruct (0 <? List.length ns)%nat; simpl; now rewrite app_nil_r. }
  split; [exact Hfilter | split].
  - apply Forall_app. split.
    + apply Forall_map, Forall_forall. intros k Hk _. apply in_seq in Hk.
      unfold importBeat. cbn [ev_time]. pose proof (num_nonneg k).
      assert (num k * (1 # 2) < d) by (apply beat_before_end; lia).
      split; lra.
    + destruct (0 <? List.length ns)%nat; each_event.
      intro H. discriminate H.
  - intro Hshort. rewrite Hfilter.
    assert (E : floor_count (d / (1 # 2)) = 0%nat).
    { unfold floor_count.
      assert (Hlt : d / (1 # 2) < 1).
      { assert (E : d / (1 # 2) == d * 2) by (field; discriminate).
        rewrite E. lra. }
      assert (Hz : (Qfloor (d / (1 # 2)) < 1)%Z).
      { rewrite Zlt_Qlt. eapply Qle_lt_trans; [apply Qfloor_le | exact Hlt]. }
      lia. }
    now rewrite E.
Qed.

Lemma import_beats_within_section_witness :
  filter isBeat (emitted (scheduleImportSection 3 (1 # 4) ["C4"])) = [].
Proof.
  destruct (import_beats_within_section 3 (1 # 4) ["C4"]) as [_ [_ H]].
  apply H. vm_compute. reflexivity.
Defined.

(** X3: when the duration of a section is not negative, every event the
    section schedules lies between its start time and its start time plus its
    duration. *)
Theorem section_events_within_section :
  forall (startTime : Q) (section : CompositionSection),
    0 <= duration section ->
    Forall (inWindow startTime (startTime + duration section))
           (emitted (scheduleSection startTime section)).
Proof. intros s sec Hd. now apply window_scheduleSection. Qed.

Lemma section_events_within_section_witness :
  Forall (inWindow 3 (3 + 2)) (emitted (scheduleSection 3 Samples.melodySection)).
Proof.
  apply (section_events_within_section 3 Samples.melodySection).
  vm_compute. discriminate.
Defined.

(** X4: [playCommitComposition] arms the stop at the sum of the durations of
    the sections, and when no duration is negative every event it schedules
    lies between 0 and that stop; with no sections the transport is started
    with nothing scheduled and the stop armed at once. *)
Theorem playback_ends_with_stop :
  forall (sections : list CompositionSection) (tr : Transport),
    let after := exec (playCommitComposition sections) tr in
    pendingStop after = Some (totalOf sections)
    /\ (Forall (fun sec => 0 <= duration sec) sections ->
        0 <= totalOf sections
        /\ Forall (inWindow 0 (totalOf sections)) (timeline after))
    /\ (sections = [] -> after = mkTransport started (bpm tr) [] (Some 0)).
Proof.
  intros sections tr. cbv zeta. rewrite playCommitComposition_events.
  split; [reflexivity | split].
  - intro Hnn. exact (sectionEvents_window sections 0 Hnn).
  - intro E. now subst sections.
Qed.

Lemma playback_ends_with_stop_witness :
  0 <= totalOf [Samples.calmSection; Samples.melodySection; Samples.tenseSection]
  /\ Forall (inWindow 0 (totalOf [Samples.calmSection; Samples.melodySection;
                                  Samples.tenseSection]))
       (timeline (exec (playCommitComposition
                          [Samples.calmSection; Samples.melodySection;
                           Samples.tenseSection]) (idle 120))).
Proof.
  apply (playback_ends_with_stop
           [Samples.calmSection; Samples.melodySection; Samples.tenseSection]
           (idle 120)).
  each_event; vm_compute; discriminate.
Defined.

(** X5: sections appended to a composition leave the events of the earlier
    sections where they were; the appended sections are scheduled as a pass
    of their own that starts at the total duration of the earlier ones, and
    the stop moves to the sum of both. *)
Theorem playback_of_appended_sections :
  forall (earlier appended : list CompositionSection) (tr : Transport),
    timeline (exec (playCommitComposition (earlier ++ appended)) tr)
    = timeline (exec (playCommitComposition earlier) tr)
      ++ timeline (exec (schedule_sections appended (totalOf earlier)) (idle 0))
    /\ pendingStop (exec (playCommitComposition (earlier ++ appended)) tr)
       = Some (fold_left Qplus (map duration appended) (totalOf earlier)).
Proof.
  intros a b tr. rewrite !playCommitComposition_events.
  unfold exec. rewrite schedule_sections_events. cbn [snd timeline idle].
  split.
  - rewrite sectionEvents_app. reflexivity.
  - cbn [pendingStop]. unfold totalOf. now rewrite map_app, fold_left_app.
Qed.

(** X6: a loop, conditional or other section sounds only on the instrument
    the section names, while for an import, function or return section the
    [instrument] field is not looked at. *)
Theorem instrument_field_use :
  forall (startTime : Q) (section : CompositionSection),
    (isNamedType (sec_type section) = false ->
     Forall (fun e => target (ev_callback e) = instrument section)
            (emitted (scheduleSection startTime section)))
    /\ (isNamedType (sec_type section) = true ->
        forall i : InstrumentType,
          emitted (scheduleSection startTime (withInstrument i section))
          = emitted (scheduleSection startTime section)).
Proof.
  intros s sec. split.
  - intro Ht.
    assert (Hg : Forall (fun e => target (ev_callback e) = instrument sec)
                   (emitted (scheduleGenericSection s (duration sec) (notes sec)
                                                    (instrument sec)))).
    { unfold scheduleGenericSection.
      destruct (List.length (notes sec) =? 0)%nat; [constructor|].
      destruct (instrument sec); try (each_event; reflexivity).
      unfold forEach. rewrite emitted_melody_run.
      apply Forall_map, Forall_forall. intros p _. reflexivity. }
    unfold scheduleSection. destruct (sec_type sec); try discriminate Ht;
      exact Hg.
  - intros Ht i. unfold scheduleSection, withInstrument.
    cbn [sec_type duration notes instrument].
    destruct (sec_type sec); try discriminate Ht; reflexivity.
Qed.

Lemma instrument_field_use_witness :
  Forall (fun e => target (ev_callback e) = harmony)
         (emitted (scheduleSection 0
                     (mkSection T_loop 1 4 2 ["C4"; "E4"; "G4"] 120 harmony)))
  /\ emitted (scheduleSection 3 (withInstrument rhythm Samples.melodySection))
     = emitted (scheduleSection 3 Samples.melodySection).
Proof.
  split.
  - apply (instrument_field_use 0
             (mkSection T_loop 1 4 2 ["C4"; "E4"; "G4"] 120 harmony)).
    reflexivity.
  - apply (instrument_field_use 3 Samples.melodySection). reflexivity.
Defined.

End Scheduling.

(* ================================================================= *)
(** ** Live playback of a mood *)

Module Live.

Import LivePlayback.

Lemma hasDigit_app a b : hasDigit (a ++ b)%string = hasDigit a || hasDigit b.
Proof.
  induction a as [|c a IH]; simpl; [reflexivity|].
  now rewrite IH, orb_assoc.
Qed.

Lemma removeFirst_absent k :
  allChars notM k = true -> removeFirst "m"%char k = k.
Proof.
  induction k as [|c k IH]; simpl; [reflexivity|].
  unfold notM at 1. intro H. apply andb_prop in H. destruct H as [Hc Hk].
  destruct (Ascii.eqb c "m"); [discriminate Hc|]. now rewrite IH.
Qed.

Lemma removeFirst_suffix k :
  allChars notM k = true -> removeFirst "m"%char (k ++ "m")%string = k.
Proof.
  induction k as [|c k IH]; simpl; [reflexivity|].
  unfold notM at 1. intro H. apply andb_prop in H. destruct H as [Hc Hk].
  destruct (Ascii.eqb c "m"); [discriminate Hc|]. now rewrite IH.
Qed.

(** X7: whatever the key, the note [normalizeKey] returns carries a digit, so
    the scale is always built from a note with an octave. *)
Theorem normalizeKey_has_octave :
  forall key : string, hasDigit (normalizeKey key) = true.
Proof.
  intro key. unfold normalizeKey.
  destruct (hasDigit (removeFirst "m" key)) eqn:E; [exact E|].
  rewrite hasDigit_app. simpl. apply orb_true_r.
Qed.

(** X8: for a key name without digit and without the letter m,
    [normalizeKey] puts the name in octave 4, and it gives the same note for
    the minor key written with the suffix m. *)
Theorem normalizeKey_of_major_and_minor :
  forall name : string,
    allChars notM name = true ->
    hasDigit name = false ->
    normalizeKey name = (name ++ "4")%string
    /\ normalizeKey (name ++ "m")%string = (name ++ "4")%string.
Proof.
  intros name Hm Hd. unfold normalizeKey.
  rewrite removeFirst_absent, removeFirst_suffix by exact Hm.
  now rewrite Hd.
Qed.

Lemma normalizeKey_of_major_and_minor_witness :
  normalizeKey "D" = "D4" /\ normalizeKey "Dm" = "D4".
Proof.
  apply (normalizeKey_of_major_and_minor "D"); reflexivity.
Defined.

Lemma skipn_exact {A} (l new : list A) : skipn (List.length l) (l ++ new) = new.
Proof. induction l as [|x l IH]; simpl; [reflexivity | exact IH]. Qed.

Section WithTone.

Variable toneTranspose : string -> Z -> string.

(** The sounds of a mood, in the order of the calls. *)
Lemma playMood_sounds now data e :
  let root := normalizeKey (rootKey data) in
  let step := toneTranspose root in
  let high i := toneTranspose (step i) 12%Z in
  sounded (playMood toneTranspose now data e)
  = sounded e
    ++ match mood data with
       | DISCORDANT =>
           [mkSound rhythmInstrument (Note "C1") (Notation_ "8n") now;
            mkSound rhythmInstrument (Note "C1") (Notation_ "16n") (now + 0.15);
            mkSound harmonyInstrument (Chord [step 0; step 2; step 10]%Z)
                    (Notation_ "2n") (now + 0.1);
            mkSound melodyInstrument (Note (step 0%Z)) (Notation_ "16n") (now + 0.2);
            mkSound melodyInstrument (Note (step 2%Z)) (Notation_ "16n") (now + 0.3)]
       | HARMONIOUS =>
           [mkSound rhythmInstrument (Note "C2") (Notation_ "4n") now;
            mkSound harmonyInstrument (Chord [step 0; step 4; step 7]%Z)
                    (Notation_ "2n") (now + 0.1);
            mkSound melodyInstrument (Note (step 0%Z)) (Notation_ "8n") (now + 0.2);
            mkSound melodyInstrument (Note (step 4%Z)) (Notation_ "8n") (now + 0.4);
            mkSound melodyInstrument (Note (step 7%Z)) (Notation_ "4n") (now + 0.6)]
       | INTENSE =>
           [mkSound rhythmInstrument (Note "C1") (Notation_ "16n") now;
            mkSound rhythmInstrument (Note "C1") (Notation_ "16n") (now + 0.1);
            mkSound rhythmInstrument (Note "C1") (Notation_ "16n") (now + 0.2);
            mkSound harmonyInstrument (Chord [step 0; step 5; step 8]%Z)
                    (Notation_ "4n") (now + 0.05);
            mkSound melodyInstrument (Note (high 0%Z)) (Notation_ "16n") (now + 0.1);
            mkSound melodyInstrument (Note (high 3%Z)) (Notation_ "16n") (now + 0.2);
            mkSound melodyInstrument (Note (high 7%Z)) (Notation_ "16n") (now + 0.3)]
       end.
Proof.
  cbv zeta. unfold playMood.
  destruct (mood data);
    unfold playDiscordantMood, playHarmoniousMood, playIntenseMood,
           triggerAttackRelease, setTempo;
    cbn [sounded transport]; rewrite <- !app_assoc; reflexivity.
Qed.

Lemma playMood_transport now data e :
  transport (playMood toneTranspose now data e)
  = mkTransport (state (transport e)) (tempo data) (timeline (transport e))
                (pendingStop (transport e)).
Proof. unfold playMood. destruct (mood data); reflexivity. Qed.

(** X9: [playMood] sets the transport tempo to the tempo of the mood and
    touches nothing else of the transport: played while a commit composition
    runs, it leaves every scheduled event and the armed stop in place and
    the composition goes on at the tempo of the mood. *)
Theorem playMood_retunes_commit_playback :
  forall (now : Q) (data : MoodData) (sections : list CompositionSection)
         (e : Engine),
    let before := LivePlayback.playCommitComposition sections e in
    let after := playMood toneTranspose now data before in
    timeline (transport after) = timeline (transport before)
    /\ pendingStop (transport after) = pendingStop (transport before)
    /\ state (transport after) = started
    /\ bpm (transport after) = tempo data.
Proof.
  intros now data sections e. cbv zeta. rewrite playMood_transport.
  cbn [timeline pendingStop state bpm].
  unfold LivePlayback.playCommitComposition. cbn [transport].
  rewrite Scheduling.playCommitComposition_events. repeat split.
Qed.

(** X10: [playMood] keeps the sounds made so far and adds five of them for a
    DISCORDANT or HARMONIOUS mood and seven for an INTENSE one, none before
    [now] and the last 0.3 seconds after it, 0.6 seconds for HARMONIOUS. *)
Theorem playMood_burst :
  forall (now : Q) (data : MoodData) (e : Engine),
    let after := playMood toneTranspose now data e in
    sounded after = sounded e ++ added e after
    /\ List.length (added e after) = moodSounds (mood data)
    /\ Forall (fun s => now <= sound_time s
                        /\ sound_time s <= now + moodSpan (mood data))
              (added e after)
    /\ Exists (fun s => sound_time s == now + moodSpan (mood data))
              (added e after).
Proof.
  intros now data e. cbv zeta. unfold added.
  rewrite playMood_sounds. rewrite skipn_exact.
  split; [reflexivity|].
  destruct (mood data); cbn [moodSounds moodSpan].
  - split; [reflexivity|]. split.
    + each_event; cbn [sound_time]; split; lra.
    + do 4 apply Exists_cons_tl. apply Exists_cons_hd. reflexivity.
  - split; [reflexivity|]. split.
    + each_event; cbn [sound_time]; split; lra.
    + do 4 apply Exists_cons_tl. apply Exists_cons_hd. reflexivity.
  - split; [reflexivity|]. split.
    + each_event; cbn [sound_time]; split; lra.
    + do 6 apply Exists_cons_tl. apply Exists_cons_hd. reflexivity.
Qed.

(** X11: every note [playMood] sounds on the harmony or the melody
    instrument is a step of the scale of the mood above the normalized root
    key (the major scale for HARMONIOUS, the natural minor scale otherwise)
    or one octave above such a step. *)
Theorem playMood_stays_in_scale :
  forall (now : Q) (data : MoodData) (e : Engine),
    Forall (fun s =>
              isPitched s ->
              Forall (inScale toneTranspose (normalizeKey (rootKey data))
                              (mood data))
                     (pitchNotes (sound_pitch s)))
           (added e (playMood toneTranspose now data e)).
Proof.
  intros now data e. unfold added.
  rewrite playMood_sounds. rewrite skipn_exact.
  destruct (mood data); cbv zeta; each_event;
    intros [H | H]; try discriminate H;
    cbn [pitchNotes sound_pitch]; each_event; unfold inScale; in_scale.
Qed.

End WithTone.

End Live.

(* ================================================================= *)
(** ** The audio engine context and the editor handlers *)

Module Context.

Import AudioEngineContext.

Lemma ensureAudioStarted_ready startFailure st :
  audioReady startFailure st ->
  exists st',
    ensureAudioStarted startFailure st = (st', None)
    /\ isBugsMuted st' = isBugsMuted st
    /\ initialized st' = initialized st
    /\ audioError st' = audioError st
    /\ currentMood st' = currentMood st
    /\ engine st' = engine st
    /\ monitor st' = monitor st.
Proof.
  intros [_ Hrun]. unfold ensureAudioStarted.
  destruct (contextRunning st) eqn:E.
  - exists st. repeat split.
  - destruct Hrun as [H | H]; [discriminate H|]. subst startFailure.
    exists (setContextRunning st). repeat split.
Qed.

Section WithTone.

Variable toneTranspose : string -> Z -> string.

(** X12: with "mute bugs" on, a DISCORDANT mood is shown but not played: the
    current mood is updated while no instrument sounds, the transport tempo
    stays and no latency is recorded.  Every other mood, and every mood with
    the mute off, is shown, played and its latency recorded. *)
Theorem mute_silences_discordant_only :
  forall (startFailure : option string) (now latency : Q) (data : MoodData)
         (st : State),
    audioReady startFailure st ->
    let after := playMood toneTranspose startFailure now latency data st in
    currentMood after = Some data
    /\ (isBugsMuted st = true -> mood data = DISCORDANT ->
        engine after = engine st /\ monitor after = monitor st)
    /\ (isBugsMuted st = false \/ mood data <> DISCORDANT ->
        engine after = LivePlayback.playMood toneTranspose now data (engine st)
        /\ monitor after
           = PerformanceMonitor.recordAudioLatency latency (monitor st)).
Proof.
  intros startFailure now latency data st Hready. cbv zeta.
  pose proof Hready as [Hinit _].
  destruct (ensureAudioStarted_ready _ _ Hready)
    as [st' [E [Hm [_ [_ [_ [He Hmon]]]]]]].
  unfold playMood. rewrite Hinit, E. cbn [negb].
  cbn [setCurrentMood isBugsMuted]. rewrite Hm.
  destruct (mood data) eqn:Hmood; destruct (isBugsMuted st) eqn:Hmuted;
    cbn [currentMood engine monitor onMonitor onEngine setCurrentMood];
    rewrite ?He, ?Hmon;
    (split; [reflexivity|]); split;
    first [ intros; split; reflexivity
          | intros; discriminate
          | intros [H | H]; first [discriminate H | now elim H] ].
Qed.

(** X13: when the audio context does not run and cannot be started,
    [playMood] sounds nothing, records nothing and does not update the
    current mood either; it only reports the error.  Without an instrument
    manager it changes nothing at all. *)
Theorem playMood_without_audio :
  forall (startFailure : option string) (now latency : Q) (data : MoodData)
         (st : State),
    (initialized st = false ->
     playMood toneTranspose startFailure now latency data st = st)
    /\ (forall msg,
          audioBlocked startFailure msg st ->
          let after := playMood toneTranspose startFailure now latency data st in
          engine after = engine st
          /\ monitor after = monitor st
          /\ currentMood after = currentMood st
          /\ audioError after = Some ("Error playing mood: " ++ msg)%string).
Proof.
  intros startFailure now latency data st. split.
  - intro H. unfold playMood. now rewrite H.
  - intros msg [Hinit [Hrun Hfail]]. cbv zeta.
    unfold playMood, ensureAudioStarted. rewrite Hinit, Hrun, Hfail.
    repeat split.
Qed.

End WithTone.

Lemma mute_silences_discordant_only_witness :
  let st := mkState true true None None true
                    (LivePlayback.mkEngine (idle 120) [])
                    (PerformanceMonitor.enable PerformanceMonitor.initial) in
  let data := mkMoodData 156 "Dm" 0.8 DISCORDANT in
  engine (playMood mockTranspose None 0 5 data st) = engine st
  /\ monitor (playMood mockTranspose None 0 5 data st) = monitor st.
Proof.
  cbv zeta.
  refine (proj1 (proj2 (mute_silences_discordant_only mockTranspose None 0 5
                          (mkMoodData 156 "Dm" 0.8 DISCORDANT)
                          (mkState true true None None true
                             (LivePlayback.mkEngine (idle 120) [])
                             (PerformanceMonitor.enable
                                PerformanceMonitor.initial))
                          _)) _ _).
  - split; [reflexivity | left; reflexivity].
  - reflexivity.
  - reflexivity.
Defined.

Lemma playMood_without_audio_witness :
  let st := mkState false true None None false
                    (LivePlayback.mkEngine (idle 120) [])
                    PerformanceMonitor.initial in
  currentMood (playMood mockTranspose (Some "blocked") 0 5
                 (mkMoodData 96 "C" 0.3 HARMONIOUS) st) = None.
Proof.
  cbv zeta.
  refine (proj1 (proj2 (proj2 (proj2 (playMood_without_audio mockTranspose
                                        (Some "blocked") 0 5
                                        (mkMoodData 96 "C" 0.3 HARMONIOUS)
                                        (mkState false true None None false
                                           (LivePlayback.mkEngine (idle 120) [])
                                           PerformanceMonitor.initial))
                                     "blocked" _)))).
  repeat split.
Defined.


(** X14: "mute bugs" silences [playUnpleasantSound] and never
    [playPleasantSound]: muted, the unpleasant sound leaves the engine as it
    is, and the pleasant sound is the same with the mute on or off. *)
Theorem mute_and_feedback_sounds :
  forall (startFailure : option string) (now : Q) (st : State),
    audioReady startFailure st ->
    (isBugsMuted st = true ->
     engine (playUnpleasantSound startFailure now st) = engine st)
    /\ (isBugsMuted st = false ->
        engine (playUnpleasantSound startFailure now st)
        = LivePlayback.playUnpleasantSound now (engine st))
    /\ engine (playPleasantSound startFailure now st)
       = LivePlayback.playPleasantSound now (engine st).
Proof.
  intros startFailure now st Hready. pose proof Hready as [Hinit _].
  destruct (ensureAudioStarted_ready _ _ Hready)
    as [st' [E [Hm [_ [_ [_ [He _]]]]]]].
  unfold playUnpleasantSound, playPleasantSound. rewrite Hinit, E.
  cbn [negb]. rewrite Hm.
  split; [|split].
  - intro H. now rewrite H.
  - intro H. rewrite H. cbn [engine onEngine]. now rewrite He.
  - cbn [engine onEngine]. now rewrite He.
Qed.

Lemma mute_and_feedback_sounds_witness :
  let st := mkState true true None None true
                    (LivePlayback.mkEngine (idle 120) [])
                    PerformanceMonitor.initial in
  engine (playUnpleasantSound None 0 st) = engine st.
Proof.
  cbv zeta.
  refine (proj1 (mute_and_feedback_sounds None 0
                   (mkState true true None None true
                      (LivePlayback.mkEngine (idle 120) [])
                      PerformanceMonitor.initial) _) _).
  - split; [reflexivity | left; reflexivity].
  - reflexivity.
Defined.

End Context.

(* ================================================================= *)
(** ** The editor handlers and the keyboard shortcuts *)

Module Editor.

Import JsString.






Section WithServices.

Variable toneTranspose : string -> Z -> string.
Variable analyze : string -> LanguageType -> MoodData.
Variable analyzeForComposition : string -> LanguageType -> list CompositionSection.


End WithServices.


Import KeyboardShortcuts.

(** X16: a key press invokes at most one shortcut handler, and none unless
    Ctrl or Cmd is held; with one of them held, Enter plays the commit, m or
    M toggles the mute and k or K clears the editor. *)
Theorem one_shortcut_per_key :
  forall event : KeyboardEvent,
    (List.length (handleKeyDown event) <= 1)%nat
    /\ (ctrlKey event = false -> metaKey event = false ->
        handleKeyDown event = [])
    /\ (ctrlKey event = true \/ metaKey event = true ->
        (key event = "Enter" -> handleKeyDown event = [onPlayCommit])
        /\ (key event = "m" \/ key event = "M" ->
            handleKeyDown event = [onToggleMute])
        /\ (key event = "k" \/ key event = "K" ->
            handleKeyDown event = [onClearEditor])).
Proof.
  intros [ctrl meta k]. cbn [ctrlKey metaKey key]. unfold handleKeyDown.
  cbn [ctrlKey metaKey key].
  split; [|split].
  - destruct (ctrl || meta); cbn [andb]; [|simpl; lia].
    destruct (String.eqb_spec k "Enter") as [E | _]; [subst k; simpl; lia|].
    destruct (String.eqb_spec k "m") as [E | _]; [subst k; simpl; lia|].
    destruct (String.eqb_spec k "M") as [E | _]; [subst k; simpl; lia|].
    destruct (k =? "k")%string, (k =? "K")%string; simpl; lia.
  - intros Hc Hm. subst ctrl meta. reflexivity.
  - intro Hmod. assert (E : ctrl || meta = true)
      by (destruct Hmod as [H | H]; rewrite H; [reflexivity | apply orb_true_r]).
    rewrite E. cbn [andb]. split; [|split].
    + intro H. subst k. reflexivity.
    + intros [H | H]; subst k; reflexivity.
    + intros [H | H]; subst k; reflexivity.
Qed.

Lemma one_shortcut_per_key_witness :
  handleKeyDown (mkKey false false "m") = []
  /\ handleKeyDown (mkKey false true "M") = [onToggleMute].
Proof.
  split.
  - apply (one_shortcut_per_key (mkKey false false "m")); reflexivity.
  - apply (one_shortcut_per_key (mkKey false true "M")).
    + right. reflexivity.
    + right. reflexivity.
Defined.

End Editor.

(* ================================================================= *)
(** ** The performance monitor *)

Module Monitoring.

Import PerformanceMonitor.

Lemma pushSample_length arr d :
  (List.length arr <= maxSamples)%nat ->
  (List.length (pushSample arr d) <= maxSamples)%nat.
Proof.
  unfold pushSample, maxSamples. intro H.
  destruct (Nat.ltb_spec 100 (List.length (arr ++ [d]))) as [Hlt | Hle];
    [|exact Hle].
  rewrite length_app in Hlt. cbn [List.length] in Hlt.
  destruct arr as [|a arr]; [simpl in Hlt; lia|].
  cbn [app tl]. rewrite length_app. cbn [List.length] in *. lia.
Qed.

Lemma perform_bounded pm c : bounded pm -> bounded (perform pm c).
Proof.
  intros [H1 [H2 H3]].
  destruct c; cbn [perform]; unfold bounded, enable, disable, clear,
    recordAnalysisTime, recordRenderTime, recordAudioLatency;
    try destruct (negb (enabled pm)); cbn [metrics analysisTime renderTime
                                           audioLatency List.length];
    repeat split; auto using pushSample_length; unfold maxSamples; lia.
Qed.

(** X17: from its creation on, whatever calls are made, the monitor holds at
    most 100 samples of each of its three kinds. *)
Theorem monitor_keeps_at_most_100_samples :
  forall calls : list Call, bounded (performAll calls initial).
Proof.
  intro calls. unfold performAll.
  assert (H : bounded initial) by (unfold bounded, maxSamples; simpl; lia).
  revert H. generalize initial.
  induction calls as [|c calls IH]; intros pm H; [exact H|].
  cbn [fold_left]. apply IH. now apply perform_bounded.
Qed.

(** X18: the monitor is switched off when created, and until [enable] is
    called every recording is dropped: after any calls other than [enable]
    the monitor is as it was created. *)
Theorem monitor_is_off_until_enabled :
  forall calls : list Call,
    forallb (fun c => negb (isEnable c)) calls = true ->
    performAll calls initial = initial.
Proof.
  unfold performAll. induction calls as [|c calls IH]; intro H; [reflexivity|].
  cbn [forallb] in H. apply andb_prop in H. destruct H as [Hc Hrest].
  cbn [fold_left].
  assert (E : perform initial c = initial)
    by (destruct c; first [reflexivity | discriminate Hc]).
  rewrite E. now apply IH.
Qed.

Lemma monitor_is_off_until_enabled_witness :
  performAll [RecordAnalysisTime 12; Disable; RecordAudioLatency 3; Clear]
             initial
  = initial.
Proof. apply monitor_is_off_until_enabled. reflexivity. Defined.

Lemma pushSample_window samples :
  forall arr,
    (List.length arr <= maxSamples)%nat ->
    fold_left pushSample samples arr
    = skipn (List.length (arr ++ samples) - maxSamples) (arr ++ samples).
Proof.
  induction samples as [|d rest IH]; intros arr Hlen.
  - cbn [fold_left]. rewrite app_nil_r.
    replace (List.length arr - maxSamples)%nat with 0%nat by lia. reflexivity.
  - cbn [fold_left]. rewrite IH by now apply pushSample_length.
    unfold pushSample, maxSamples in *.
    destruct (Nat.ltb_spec 100 (List.length (arr ++ [d]))) as [Hlt | Hle].
    + rewrite length_app in Hlt. cbn [List.length] in Hlt.
      destruct arr as [|a arr]; [simpl in Hlt; lia|].
      cbn [app tl]. rewrite <- !app_assoc. cbn [app].
      cbn [List.length] in *. rewrite !length_app. cbn [List.length].
      replace (S (List.length arr + S (List.length rest)) - 100)%nat
        with (S (List.length arr + S (List.length rest) - 100))%nat by lia.
      reflexivity.
    + rewrite <- !app_assoc. reflexivity.
Qed.

Lemma record_all_analysis samples :
  forall pm,
    enabled pm = true ->
    performAll (map RecordAnalysisTime samples) pm
    = mkMonitor (mkMetrics (fold_left pushSample samples (analysisTime (metrics pm)))
                           (renderTime (metrics pm))
                           (audioLatency (metrics pm)))
                true.
Proof.
  unfold performAll.
  induction samples as [|d rest IH]; intros pm He.
  - destruct pm as [[a r l] en]. cbn in *. now subst en.
  - cbn [map fold_left perform]. unfold recordAnalysisTime at 1.
    rewrite He. cbn [negb]. rewrite IH by reflexivity. reflexivity.
Qed.

(** X19: an enabled monitor keeps a sliding window: after a run of analysis
    times is recorded into an empty monitor it holds the last 100 of them in
    the order they came, all of them if there were fewer. *)
Theorem monitor_keeps_the_latest_samples :
  forall samples : list Q,
    analysisTime (metrics (performAll (map RecordAnalysisTime samples)
                                      (enable initial)))
    = skipn (List.length samples - 100) samples.
Proof.
  intro samples. rewrite record_all_analysis by reflexivity.
  cbn [metrics analysisTime enable initial].
  rewrite pushSample_window by (simpl; unfold maxSamples; lia).
  reflexivity.
Qed.

Lemma count_cons x arr : count (x :: arr) == count arr + 1.
Proof.
  unfold count. cbn [List.length]. rewrite Nat2Z.inj_succ. unfold Z.succ.
  now rewrite inject_Z_plus.
Qed.

Lemma count_nonneg arr : 0 <= count arr.
Proof.
  unfold count. change 0 with (inject_Z 0). rewrite <- Zle_Qle. lia.
Qed.

Lemma count_pos arr : arr <> [] -> 0 < count arr.
Proof.
  intro H. destruct arr as [|x arr]; [contradiction|].
  rewrite count_cons. pose proof (count_nonneg arr). lra.
Qed.

(* ----------------------------------------------------------------- *)
(** *** The sort and the percentile *)

Lemma insertSorted_perm x l : Permutation (x :: l) (insertSorted x l).
Proof.
  induction l as [|y l IH]; simpl; [reflexivity|].
  destruct (Qle_bool x y); [reflexivity|].
  rewrite perm_swap. now apply perm_skip.
Qed.

Lemma sortAscending_perm arr : Permutation arr (sortAscending arr).
Proof.
  induction arr as [|x arr IH]; simpl; [reflexivity|].
  rewrite <- insertSorted_perm. now apply perm_skip.
Qed.

Lemma insertSorted_sorted x l :
  StronglySorted Qle l -> StronglySorted Qle (insertSorted x l).
Proof.
  induction 1 as [|y l Hs IH Hall]; simpl.
  - constructor; constructor.
  - destruct (Qle_bool x y) eqn:E.
    + apply Qle_bool_iff in E. constructor; [now constructor|].
      constructor; [exact E|].
      revert Hall. apply Forall_impl. intros z Hz. lra.
    + assert (Hyx : y <= x).
      { apply Qlt_le_weak, Qnot_le_lt. intro H.
        apply Qle_bool_iff in H. congruence. }
      constructor; [exact IH|].
      apply (Permutation_Forall (insertSorted_perm x l)).
      constructor; [exact Hyx | exact Hall].
Qed.

Lemma sortAscending_sorted arr : StronglySorted Qle (sortAscending arr).
Proof.
  induction arr as [|x arr IH]; simpl; [constructor|].
  now apply insertSorted_sorted.
Qed.

Lemma sorted_split l1 x l2 :
  StronglySorted Qle (l1 ++ x :: l2) ->
  Forall (fun y => y <= x) l1 /\ Forall (fun y => x <= y) l2.
Proof.
  induction l1 as [|a l1 IH]; cbn [app]; intro H.
  - inversion H; subst. split; [constructor | assumption].
  - inversion H as [|? ? Hs Hall]; subst.
    destruct (IH Hs) as [H1 H2]. split; [|exact H2].
    constructor; [|exact H1].
    apply Forall_app in Hall. destruct Hall as [_ Hx].
    now inversion Hx.
Qed.

Lemma count_sorted arr : count (sortAscending arr) = count arr.
Proof.
  unfold count. now rewrite <- (Permutation_length (sortAscending_perm arr)).
Qed.

Lemma floor_index_in_range arr p :
  arr <> [] -> 0 <= p -> p < 1 ->
  (0 <= Qfloor (count arr * p) < Z.of_nat (List.length arr))%Z.
Proof.
  intros Hne H0 H1. pose proof (count_pos arr Hne) as Hpos. split.
  - change 0%Z with (Qfloor 0). apply Qfloor_resp_le. nra.
  - rewrite Zlt_Qlt. eapply Qle_lt_trans; [apply Qfloor_le|].
    fold (count arr). nra.
Qed.

Lemma percentile_in_range arr p :
  arr <> [] -> 0 <= p -> p < 1 ->
  exists (x : Q) (below above : list Q),
    getPercentile arr p = Some x
    /\ Permutation arr (below ++ x :: above)
    /\ List.length below = Z.to_nat (Qfloor (count arr * p))
    /\ Forall (fun y => y <= x) below
    /\ Forall (fun y => x <= y) above.
Proof.
  intros Hne H0 H1.
  destruct (floor_index_in_range arr p Hne H0 H1) as [Hlo Hhi].
  unfold getPercentile.
  destruct arr as [|a arr']; [contradiction|]. set (arr := a :: arr') in *.
  change (List.length arr =? 0)%nat with false. cbv iota zeta.
  rewrite count_sorted.
  destruct (Z.ltb_spec (Qfloor (count arr * p)) 0) as [Hneg | _]; [lia|].
  set (index := Z.to_nat (Qfloor (count arr * p))).
  assert (Hidx : (index < List.length (sortAscending arr))%nat).
  { rewrite <- (Permutation_length (sortAscending_perm arr)).
    unfold index. lia. }
  destruct (nth_error (sortAscending arr) index) as [x|] eqn:Hnth;
    [|apply nth_error_None in Hnth; lia].
  destruct (nth_error_split _ _ Hnth) as [l1 [l2 [Hsplit Hlen]]].
  exists x, l1, l2. split; [reflexivity|].
  pose proof (sortAscending_sorted arr) as Hsorted. rewrite Hsplit in Hsorted.
  destruct (sorted_split _ _ _ Hsorted) as [Hb Ha].
  repeat split; try assumption.
  rewrite <- Hsplit. apply sortAscending_perm.
Qed.



(** X22: for at least one sample and a percentile of 1 or more, or a negative
    one, the index falls outside the sorted samples and [getPercentile]
    returns [undefined]; for no samples it returns 0 whatever the
    percentile. *)
Theorem percentile_out_of_range :
  forall (arr : list Q) (percentile : Q),
    getPercentile [] percentile = Some 0
    /\ (arr <> [] -> percentile < 0 \/ 1 <= percentile ->
        getPercentile arr percentile = None).
Proof.
  intros arr p. split; [reflexivity|]. intros Hne Hout.
  pose proof (count_pos arr Hne) as Hpos.
  unfold getPercentile.
  destruct arr as [|a arr']; [contradiction|]. set (arr := a :: arr') in *.
  change (List.length arr =? 0)%nat with false. cbv iota zeta.
  rewrite count_sorted.
  destruct (Z.ltb_spec (Qfloor (count arr * p)) 0) as [_ | Hge]; [reflexivity|].
  apply nth_error_None.
  rewrite <- (Permutation_length (sortAscending_perm arr)).
  destruct Hout as [Hneg | Hbig].
  - exfalso. assert (Hlt : count arr * p < 0) by nra.
    assert (Hz : (Qfloor (count arr * p) < 0)%Z).
    { rewrite Zlt_Qlt. eapply Qle_lt_trans; [apply Qfloor_le | exact Hlt]. }
    lia.
  - assert (Hle : count arr <= count arr * p) by nra.
    apply Qfloor_resp_le in Hle. unfold count in Hle at 1.
    rewrite Qfloor_Z in Hle. lia.
Qed.

Lemma percentile_out_of_range_witness :
  getPercentile [30; 10; 20] 1 = None.
Proof.
  apply (percentile_out_of_range [30; 10; 20] 1).
  - discriminate.
  - right. vm_compute. discriminate.
Defined.

Lemma p95_defined arr : exists x, getPercentile arr 0.95 = Some x.
Proof.
  destruct arr as [|a arr']; [now exists 0|].
  destruct (percentile_in_range (a :: arr') 0.95) as [x [_ [_ [H _]]]];
    [discriminate | vm_compute; discriminate | reflexivity |].
  now exists x.
Qed.

(** X25: whatever the monitor holds, the three 95th percentiles of its
    report are defined: the index [floor(n * 0.95)] never leaves the
    samples. *)
Theorem report_percentiles_are_defined :
  forall pm : Monitor,
    exists a r l : Q,
      p95 (analysis (getReport pm)) = Some a
      /\ p95 (render (getReport pm)) = Some r
      /\ snd (audio (getReport pm)) = Some l.
Proof.
  intro pm. unfold getReport. cbn [analysis render audio p95 snd].
  destruct (p95_defined (analysisTime (metrics pm))) as [a Ha].
  destruct (p95_defined (renderTime (metrics pm))) as [r Hr].
  destruct (p95_defined (audioLatency (metrics pm))) as [l Hl].
  exists a, r, l. now rewrite Ha, Hr, Hl.
Qed.

End Monitoring.

(* ================================================================= *)
(** ** The language detector *)

Module Detection.

Import LanguageDetector.

Section WithRegExp.

Variable test : RegExp -> string -> bool.
Variable matchCount : RegExp -> string -> nat.

(** X23: [detectLanguage] answers python exactly when the text is not blank,
    the python weight is positive and the javascript weight does not exceed
    it: a tie of positive weights goes to python, and only blank text or two
    weights of 0 fall back to javascript. *)
Theorem python_wins_ties :
  forall code : string,
    detectLanguage test matchCount code = python
    <-> (JsString.isBlank code = false
         /\ (0 < pythonWeight test matchCount code)%nat
         /\ (javascriptWeight test matchCount code
             <= pythonWeight test matchCount code)%nat).
Proof.
  intro code. unfold detectLanguage, heaviest. cbn [fold_left snd].
  destruct (JsString.isBlank code).
  - split; [discriminate | intros [H _]; discriminate H].
  - destruct (Nat.ltb_spec (pythonWeight test matchCount code)
                           (javascriptWeight test matchCount code)) as [Hlt | Hle].
    + split.
      * destruct (javascriptWeight test matchCount code =? 0)%nat; discriminate.
      * intros [_ [_ H]]. lia.
    + destruct (Nat.eqb_spec (pythonWeight test matchCount code) 0) as [E | E].
      * split; [discriminate | intros [_ [H _]]; lia].
      * split; [intros _; repeat split; lia | reflexivity].
Qed.

Lemma round_nonneg x : 0 <= x -> (0 <= JsString.mathRound x)%Z.
Proof.
  intro H. unfold JsString.mathRound. change 0%Z with (Qfloor 0).
  apply Qfloor_resp_le. lra.
Qed.

Lemma ratio_bounds score l :
  let r := inject_Z (Z.of_nat score) / inject_Z (Z.of_nat (maxScoreOf l)) * 100 in
  0 <= r /\ ((maxScoreOf l <= score)%nat -> 100 <= r).
Proof.
  cbv zeta.
  assert (Hmax : 0 < inject_Z (Z.of_nat (maxScoreOf l)))
    by (destruct l; reflexivity).
  assert (Hs : 0 <= inject_Z (Z.of_nat score)).
  { change 0 with (inject_Z 0). rewrite <- Zle_Qle. lia. }
  split.
  - apply Qmult_le_0_compat; [|discriminate].
    apply Qle_shift_div_l; [exact Hmax | lra].
  - intro Hle.
    assert (H1 : 1 <= inject_Z (Z.of_nat score) / inject_Z (Z.of_nat (maxScoreOf l))).
    { apply Qle_shift_div_l; [exact Hmax|]. rewrite Qmult_1_l.
      rewrite <- Zle_Qle. lia. }
    lra.
Qed.

(** X24: the confidence [getLanguageConfidence] returns is an integer
    between 0 and 100, and it is 100 as soon as the score reaches the maximal
    score, which a keyword that occurs several times can exceed. *)
Theorem confidence_is_a_percentage :
  forall (code : string) (l : LanguageType),
    let confidence := getLanguageConfidence test matchCount code l in
    (0 <= confidence <= 100)%Z
    /\ ((maxScoreOf l <= signatureWeight test matchCount (signatureOf l) code)%nat ->
        confidence = 100%Z).
Proof.
  intros code l. cbv zeta. unfold getLanguageConfidence. fold (maxScoreOf l).
  destruct (ratio_bounds (signatureWeight test matchCount (signatureOf l) code) l)
    as [H0 H100].
  pose proof (round_nonneg _ H0) as Hr.
  split; [lia|].
  intro Hle. specialize (H100 Hle).
  assert (Hbig : (100 <= JsString.mathRound
                           (inject_Z (Z.of_nat (signatureWeight test matchCount
                                                  (signatureOf l) code))
                            / inject_Z (Z.of_nat (maxScoreOf l)) * 100))%Z).
  { unfold JsString.mathRound.
    apply (Z.le_trans _ (Qfloor 100)); [vm_compute; discriminate|].
    apply Qfloor_resp_le. lra. }
  lia.
Qed.

End WithRegExp.

Lemma confidence_is_a_percentage_witness :
  getLanguageConfidence alwaysMatches oneMatch "def f(): pass" python = 100%Z.
Proof.
  apply (confidence_is_a_percentage alwaysMatches oneMatch "def f(): pass" python).
  apply Nat.leb_le. vm_compute. reflexivity.
Defined.

End Detection.

(* ================================================================= *)
(** ** Commit playback: where every trigger is placed *)

Module StartTimes.
Import InstrumentManager.

Lemma map_over_flat_map {A B C} (f : B -> C) (g : A -> list B) (l : list A) :
  map f (flat_map g l) = flat_map (fun x => map f (g x)) l.
Proof.
  induction l as [|x l IH]; cbn [flat_map map]; [reflexivity|].
  rewrite map_app, IH. reflexivity.
Qed.

Lemma nth_error_indexed_from {A} (xs : list A) :
  forall i k x,
    nth_error xs k = Some x ->
    In ((i + k)%nat, x) (combine (seq i (List.length xs)) xs).
Proof.
  induction xs as [|y xs IH]; intros i k x H.
  - destruct k; discriminate H.
  - destruct k as [|k]; cbn [List.length seq combine].
    + injection H as ->. left. rewrite Nat.add_0_r. reflexivity.
    + right. replace (i + S k)%nat with (S i + k)%nat by lia.
      apply IH. exact H.
Qed.

Lemma nth_error_indexed {A} (xs : list A) k x :
  nth_error xs k = Some x -> In (k, x) (indexed xs).
Proof. intro H. exact (nth_error_indexed_from xs 0 k x H). Qed.

(** What a section emits is its score placed at its start time. *)
Lemma scheduleSection_places_score startTime section :
  emitted (scheduleSection startTime section)
  = map (place startTime) (sectionScore section).
Proof.
  unfold scheduleSection, sectionScore.
  destruct (sec_type section) eqn:Hty.
  all: try (unfold scheduleGenericSection, genericScore;
            destruct (notes section) as [|n0 ns'] eqn:E; [reflexivity|];
            change (List.length (n0 :: ns') =? 0)%nat with false; cbv iota;
            destruct (instrument section); try reflexivity;
            unfold forEach; rewrite Scheduling.emitted_melody_run, map_map;
            reflexivity).
  - rewrite Scheduling.emitted_scheduleImportSection. unfold importScore.
    rewrite map_app, map_map. f_equal.
    destruct (0 <? List.length (notes section))%nat; reflexivity.
  - destruct (notes section) as [|n0 ns'] eqn:E; [reflexivity|].
    rewrite Scheduling.emitted_scheduleFunctionSection. unfold functionScore.
    rewrite map_app, map_over_flat_map. f_equal.
    + apply flat_map_ext. intros [k note]. unfold noteEvents, leadNote.
      cbn [fst snd]. destruct (k mod 2 =? 0)%nat; reflexivity.
    + destruct (3 <=? List.length (n0 :: ns'))%nat; reflexivity.
  - unfold scheduleReturnSection, returnScore.
    destruct (3 <=? List.length (notes section))%nat; reflexivity.
Qed.

(** C4: after [playCommitComposition] the timeline is, section by section
    and for every kind of section, the score of the section (which does not
    depend on where the section stands) placed at the sum of the durations
    of the sections before it: a trigger of offset [q] is at that sum plus
    [q].  In a function section of [n] notes the melody triggers are the
    notes in order, note [k] at the start plus [k] intervals of
    [duration / n]; each such trigger of section [i] is on the timeline with
    the start being the sum of the durations before [i]; and for a duration
    that is not negative the notes come in time order between the start and
    the end of the section. *)
Theorem playCommitComposition_places_every_section :
  forall (sections : list CompositionSection) (tr : Transport),
    timeline (exec (playCommitComposition sections) tr)
    = flat_map (fun p => map (place (startTimeOf sections (fst p)))
                             (sectionScore (snd p)))
               (indexed sections)
    /\ (forall i section k note,
          nth_error sections i = Some section ->
          sec_type section = T_function ->
          nth_error (notes section) k = Some note ->
          In (leadNote (startTimeOf sections i) (duration section)
                       (List.length (notes section)) k note)
             (timeline (exec (playCommitComposition sections) tr)))
    /\ (forall startTime section,
          sec_type section = T_function ->
          let n := List.length (notes section) in
          filter isMelody (emitted (scheduleSection startTime section))
          = map (fun p => leadNote startTime (duration section) n (fst p) (snd p))
                (indexed (notes section))
          /\ (0 <= duration section ->
              forall k note1 note2,
                (S k < n)%nat ->
                startTime
                <= ev_time (leadNote startTime (duration section) n k note1)
                /\ ev_time (leadNote startTime (duration section) n k note1)
                   <= ev_time (leadNote startTime (duration section) n (S k) note2)
                /\ ev_time (leadNote startTime (duration section) n (S k) note2)
                   <= startTime + duration section)).
Proof.
  intros sections tr.
  assert (Hrun : timeline (exec (playCommitComposition sections) tr)
                 = flat_map (fun p => emitted (scheduleSection
                                                 (startTimeOf sections (fst p))
                                                 (snd p)))
                            (indexed sections)).
  { rewrite Playback.playCommitComposition_run. reflexivity. }
  assert (Hlead : forall startTime section,
             sec_type section = T_function ->
             filter isMelody (emitted (scheduleSection startTime section))
             = map (fun p => leadNote startTime (duration section)
                                      (List.length (notes section))
                                      (fst p) (snd p))
                   (indexed (notes section))).
  { intros startTime section Hty. unfold scheduleSection. rewrite Hty.
    exact (Playback.lead_notes startTime (duration section) (notes section)). }
  split; [|split].
  - rewrite Hrun. apply flat_map_ext. intros [i section].
    apply scheduleSection_places_score.
  - intros i section k note Hi Hty Hk. rewrite Hrun.
    apply in_flat_map. exists (i, section). split.
    + apply nth_error_indexed. exact Hi.
    + cbn [fst snd].
      assert (Hin : In (leadNote (startTimeOf sections i) (duration section)
                                 (List.length (notes section)) k note)
                       (filter isMelody
                          (emitted (scheduleSection (startTimeOf sections i)
                                                    section)))).
      { rewrite (Hlead _ _ Hty).
        apply (in_map (fun p => leadNote (startTimeOf sections i)
                                         (duration section)
                                         (List.length (notes section))
                                         (fst p) (snd p))
                      _ (k, note)).
        apply nth_error_indexed. exact Hk. }
      apply filter_In in Hin. exact (proj1 Hin).
  - intros startTime section Hty n. split; [exact (Hlead _ _ Hty)|].
    intros Hd k note1 note2 Hk. unfold leadNote. cbn [ev_time].
    assert (Hn : (0 < n)%nat) by lia.
    destruct (Scheduling.fraction_bounds k n (duration section)
                ltac:(lia) Hn Hd) as [Hk0 _].
    destruct (Scheduling.fraction_bounds (S k) n (duration section)
                ltac:(lia) Hn Hd) as [_ Hk1].
    assert (Hstep : num k * (duration section / num n)
                    <= num (S k) * (duration section / num n)).
    { apply Qmult_le_compat_r.
      - apply Scheduling.num_le. lia.
      - apply Qle_shift_div_l; [apply Scheduling.num_positive; exact Hn|].
        rewrite Qmult_0_l. exact Hd. }
    repeat split; lra.
Qed.

(** The sample composition: the third note of its function section, the
    second section, is placed three seconds in plus two intervals of two
    seconds over four notes; and the whole timeline is the three scores
    placed at 0, 3 and 5 seconds. *)
Lemma playCommitComposition_places_every_section_witness :
  In (leadNote (startTimeOf sampleComposition 1) 2 4 2 "G4")
     (timeline (exec (playCommitComposition sampleComposition) (idle 120)))
  /\ filter isMelody (emitted (scheduleSection 3 Samples.melodySection))
     = map (fun p => leadNote 3 2 4 (fst p) (snd p))
           (indexed ["C4"; "E4"; "G4"; "C5"])
  /\ 3 <= ev_time (leadNote 3 2 4 2 "G4")
  /\ ev_time (leadNote 3 2 4 2 "G4") <= ev_time (leadNote 3 2 4 3 "C5")
  /\ ev_time (leadNote 3 2 4 3 "C5") <= 3 + 2.
Proof.
  destruct (playCommitComposition_places_every_section
              sampleComposition (idle 120)) as [_ [Hon Hnotes]].
  split.
  - apply (Hon 1%nat Samples.melodySection 2%nat "G4"); reflexivity.
  - destruct (Hnotes 3 Samples.melodySection) as [Hlead Horder];
      [reflexivity|].
    split; [exact Hlead|].
    apply (Horder ltac:(vm_compute; discriminate) 2%nat "G4" "C5").
    vm_compute. lia.
Defined.

End StartTimes.
